(** * VolleyConnect: the map screen's viewport-driven data synchronisation

    A shallow embedding of [src/app/(tabs)/map.tsx]: the bounding-box
    arithmetic, the two Supabase read requests, and the [MapScreen]
    component seen as an event-driven state machine (React state and one
    ref, one debounce timer, asynchronous functions cut at their [await]s).

    JavaScript numbers are IEEE 754 binary64 values, Rocq's primitive
    [float]; their arithmetic is specified by [SpecFloat] through the
    axioms of [FloatAxioms]. *)

From Stdlib Require Import ZArith Lia Floats.
From stdpp Require Import gmap strings list pretty.

(** A decimal literal denotes the nearest binary64 number, as it does in
    JavaScript. *)
#[local] Set Warnings "-inexact-float".

(** ** Data model *)

(** [Game["status"]]: ["active" | "cancelled" | "completed"]. *)
Inductive GameStatus := active | cancelled | completed.

Module Game.
(** type [Game], lines 7-18. *)
Record t := mk {
  id : string;
  title : string;
  starts_at : string;
  location_name : option string;
  lat : float;
  lng : float;
  max_players : float;
  skill_min : option float;
  skill_max : option float;
  status : GameStatus
}.
End Game.
Abbreviation Game := Game.t.

(** [Region] of react-native-maps: centre and angular spans. *)
Record Region := mkRegion {
  latitude : float;
  longitude : float;
  latitudeDelta : float;
  longitudeDelta : float
}.

(** The object literal returned by [regionToBounds]. *)
Record Bounds := mkBounds {
  minLat : float;
  maxLat : float;
  minLng : float;
  maxLng : float
}.

(** ** GeoBounds calculator (lines 20-26) *)

Definition regionToBounds (r : Region) : Bounds :=
  let minLat := (latitude r - latitudeDelta r / 2)%float in
  let maxLat := (latitude r + latitudeDelta r / 2)%float in
  let minLng := (longitude r - longitudeDelta r / 2)%float in
  let maxLng := (longitude r + longitudeDelta r / 2)%float in
  {| minLat := minLat; maxLat := maxLat; minLng := minLng; maxLng := maxLng |}.

(** ** The Supabase client, as far as the screen uses it *)

(** A value compared against a column. [VDate ms] stands for
    [new Date(ms).toISOString()], the timestamp [ms] milliseconds after the
    epoch. *)
Inductive Value :=
| VStr (s : string)
| VNum (x : float)
| VDate (ms : Z).

Inductive Filter :=
| FEq (column : string) (v : Value)
| FGte (column : string) (v : Value)
| FLte (column : string) (v : Value).

(** A read request under construction by the query builder; the filters
    are kept in the order of the calls. *)
Record Query := mkQuery {
  q_table : string;
  q_columns : string;
  q_count : option string;
  q_head : bool;
  q_filters : list Filter;
  q_order : option (string * bool);
  q_limit : option Z
}.

Module Postgrest.
Definition from (table : string) : Query :=
  mkQuery table "" None false [] None None.

Definition select (columns : string) (count : option string) (head : bool)
    (q : Query) : Query :=
  mkQuery (q_table q) columns count head (q_filters q) (q_order q) (q_limit q).

Definition add_filter (f : Filter) (q : Query) : Query :=
  mkQuery (q_table q) (q_columns q) (q_count q) (q_head q)
          (q_filters q ++ [f]) (q_order q) (q_limit q).

Definition eq (column : string) (v : Value) := add_filter (FEq column v).
Definition gte (column : string) (v : Value) := add_filter (FGte column v).
Definition lte (column : string) (v : Value) := add_filter (FLte column v).

Definition order (column : string) (ascending : bool) (q : Query) : Query :=
  mkQuery (q_table q) (q_columns q) (q_count q) (q_head q)
          (q_filters q) (Some (column, ascending)) (q_limit q).

Definition limit (n : Z) (q : Query) : Query :=
  mkQuery (q_table q) (q_columns q) (q_count q) (q_head q)
          (q_filters q) (q_order q) (Some n).
End Postgrest.

(** Method chaining: [q |> f] is [q.f(...)]. *)
Notation "q |> f" := (f q) (at level 45, left associativity, only parsing).

(** The builder chain of [fetchGamesInRegion], lines 101-111. *)
Definition gamesQuery (b : Bounds) (oneHourAgo : Value) : Query :=
  Postgrest.from "games"
    |> Postgrest.select "id,title,starts_at,location_name,lat,lng,max_players,skill_min,skill_max,status"
              None false
    |> Postgrest.eq "status" (VStr "active")
    |> Postgrest.gte "starts_at" oneHourAgo
    |> Postgrest.gte "lat" (VNum (minLat b))
    |> Postgrest.lte "lat" (VNum (maxLat b))
    |> Postgrest.gte "lng" (VNum (minLng b))
    |> Postgrest.lte "lng" (VNum (maxLng b))
    |> Postgrest.order "starts_at" true
    |> Postgrest.limit 200.

(** The builder chain of [onSelectGame], lines 137-140. *)
Definition countQuery (g : Game) : Query :=
  Postgrest.from "game_players"
    |> Postgrest.select "user_id" (Some "exact") true
    |> Postgrest.eq "game_id" (VStr (Game.id g)).

(** [status] of [requestForegroundPermissionsAsync]. *)
Inductive PermissionStatus := granted | denied | undetermined.

#[export] Instance PermissionStatus_eq_dec : EqDecision PermissionStatus.
Proof. solve_decision. Defined.

(** [data.session] of [supabase.auth.getSession()]; the screen only tests
    whether it is there. *)
Record Session := mkSession { access_token : string }.

(** [error] of a Supabase response. *)
Record PostgrestError := mkError { message : string }.

(** What the screen asks of its collaborators. *)
Inductive Request :=
| ReqPermission
| ReqPosition
| ReqGetSession
| ReqGames (q : Query)
| ReqCount (q : Query).

(** What an awaited promise settles with. *)
Inductive Response :=
| RPermission (status : PermissionStatus)
| RPosition (latitude longitude : float)
| RPositionRejected
| RSession (session : option Session)
| RGames (data : option (list Game)) (error : option PostgrestError)
| RCount (count : option Z) (error : option PostgrestError).

(** ** The component

    [State] is what [MapScreen] keeps between renders: its seven
    [useState] cells and the [fetchTimer] ref (lines 36-47). *)
Record State := mkState {
  loadingLocation : bool;
  region : option Region;
  loadingGames : bool;
  games : list Game;
  selected : option Game;
  playerCount : option Z;
  loadingCount : bool;
  fetchTimer : option Z
}.

(** An armed [setTimeout] callback. The screen arms one kind only, the
    arrow function of [scheduleFetch], which closes over the region. *)
Record Timer := mkTimer {
  timer_id : Z;
  deadline : Z;
  timer_region : Region
}.

(** An asynchronous function suspended at an [await]: the rest of the
    function, named by the place where it resumes. *)
Inductive Cont :=
| KPermission          (* the effect, after line 53 *)
| KPosition            (* the effect, after line 60 *)
| KAuth (r : Region)   (* [fetchGamesInRegion r], in [ensureAuthedOrWarn]
                          after line 77 *)
| KGames               (* [fetchGamesInRegion], after line 111 *)
| KCount (g : Game).   (* [onSelectGame g], after line 140 *)

(** The component together with the runtime it runs on: the clock read by
    [Date.now()], the armed timers, the suspended functions, and what has
    gone out to the user ([Alert.alert]), to the console and to the
    collaborators. *)
Record World := mkWorld {
  component : State;
  now : Z;
  timers : list Timer;
  nextTimer : Z;
  pending : gmap nat Cont;
  nextTask : nat;
  alerts : list (string * string);
  console : list string;
  requests : list Request
}.

(** *** A state monad over [World] *)

Definition M (A : Type) : Type := World -> A * World.

#[export] Instance M_ret : MRet M := fun _ x w => (x, w).
#[export] Instance M_bind : MBind M :=
  fun _ _ f m w => let (x, w') := m w in f x w'.

Definition exec {A} (m : M A) (w : World) : World := (m w).2.

Definition modifyState (f : State -> State) : M unit := fun w =>
  (tt, mkWorld (f (component w)) (now w) (timers w) (nextTimer w) (pending w)
               (nextTask w) (alerts w) (console w) (requests w)).

Definition setLoadingLocation (b : bool) : M unit := modifyState (fun s =>
  mkState b (region s) (loadingGames s) (games s) (selected s)
          (playerCount s) (loadingCount s) (fetchTimer s)).
Definition setRegion (r : option Region) : M unit := modifyState (fun s =>
  mkState (loadingLocation s) r (loadingGames s) (games s) (selected s)
          (playerCount s) (loadingCount s) (fetchTimer s)).
Definition setLoadingGames (b : bool) : M unit := modifyState (fun s =>
  mkState (loadingLocation s) (region s) b (games s) (selected s)
          (playerCount s) (loadingCount s) (fetchTimer s)).
Definition setGames (l : list Game) : M unit := modifyState (fun s =>
  mkState (loadingLocation s) (region s) (loadingGames s) l (selected s)
          (playerCount s) (loadingCount s) (fetchTimer s)).
Definition setSelected (g : option Game) : M unit := modifyState (fun s =>
  mkState (loadingLocation s) (region s) (loadingGames s) (games s) g
          (playerCount s) (loadingCount s) (fetchTimer s)).
Definition setPlayerCount (c : option Z) : M unit := modifyState (fun s =>
  mkState (loadingLocation s) (region s) (loadingGames s) (games s) (selected s)
          c (loadingCount s) (fetchTimer s)).
Definition setLoadingCount (b : bool) : M unit := modifyState (fun s =>
  mkState (loadingLocation s) (region s) (loadingGames s) (games s) (selected s)
          (playerCount s) b (fetchTimer s)).
(** [fetchTimer.current = t] *)
Definition setFetchTimer (t : option Z) : M unit := modifyState (fun s =>
  mkState (loadingLocation s) (region s) (loadingGames s) (games s) (selected s)
          (playerCount s) (loadingCount s) t).
(** [fetchTimer.current] *)
Definition getFetchTimer : M (option Z) := fun w => (fetchTimer (component w), w).

(** [Date.now()] *)
Definition dateNow : M Z := fun w => (now w, w).

(** [Alert.alert(title, message)] *)
Definition alert (title message : string) : M unit := fun w =>
  (tt, mkWorld (component w) (now w) (timers w) (nextTimer w) (pending w)
               (nextTask w) (alerts w ++ [(title, message)]) (console w)
               (requests w)).

(** [console.log(tag, ...)] *)
Definition consoleLog (line : string) : M unit := fun w =>
  (tt, mkWorld (component w) (now w) (timers w) (nextTimer w) (pending w)
               (nextTask w) (alerts w) (console w ++ [line]) (requests w)).

(** [setTimeout(() => fetchGamesInRegion(r)..., delay)]: arms a timer and
    returns its handle. *)
Definition setTimeout (r : Region) (delay : Z) : M Z := fun w =>
  (nextTimer w,
   mkWorld (component w) (now w)
           (timers w ++ [mkTimer (nextTimer w) (now w + delay) r])
           (nextTimer w + 1) (pending w) (nextTask w) (alerts w) (console w)
           (requests w)).

(** [clearTimeout(id)]: disarms the timer with that handle, if it is still
    armed. *)
Definition clearTimeout (id : Z) : M unit := fun w =>
  (tt, mkWorld (component w) (now w)
               (filter (fun t => timer_id t ≠ id) (timers w))
               (nextTimer w) (pending w) (nextTask w) (alerts w) (console w)
               (requests w)).

(** [await <request>]: the request goes out and the running function is
    suspended with [k] as what remains of it. *)
Definition await (req : Request) (k : Cont) : M unit := fun w =>
  (tt, mkWorld (component w) (now w) (timers w) (nextTimer w)
               (<[nextTask w := k]> (pending w)) (S (nextTask w))
               (alerts w) (console w) (requests w ++ [req])).

(** *** The functions of [MapScreen]

    An [async] function is cut at each [await]: the first piece runs up to
    the request, the next one resumes with the response. *)

(** [ensureAuthedOrWarn], lines 76-86, called with what its caller does
    with the answer. *)
Definition ensureAuthedOrWarn (k : Cont) : M unit :=
  await ReqGetSession k.

Definition ensureAuthedOrWarn_resume (session : option Session) : M bool :=
  match session with
  | None =>
      alert "Not logged in"
            "Your database policies currently require login to view games. Add Auth next, or temporarily allow public read for games.";;
      mret false
  | Some _ => mret true
  end.

(** [fetchGamesInRegion], lines 88-122. *)
Definition fetchGamesInRegion (r : Region) : M unit :=
  ensureAuthedOrWarn (KAuth r).

Definition fetchGamesInRegion_authed (r : Region) (ok : bool) : M unit :=
  if negb ok then mret tt
  else
    let b := regionToBounds r in
    setLoadingGames true;;
    setSelected None;;
    setPlayerCount None;;
    t ← dateNow;
    let oneHourAgo := VDate (t - 60 * 60 * 1000) in
    await (ReqGames (gamesQuery b oneHourAgo)) KGames.

Definition fetchGamesInRegion_done (data : option (list Game))
    (error : option PostgrestError) : M unit :=
  setLoadingGames false;;
  match error with
  | Some e =>
      consoleLog "fetch games error";;
      alert "Error" (message e)
  | None => setGames (default [] data)
  end.

(** [scheduleFetch], lines 124-129. A handle is truthy when it is not 0. *)
Definition scheduleFetch (r : Region) : M unit :=
  cur ← getFetchTimer;
  match cur with
  | Some id => if bool_decide (id ≠ 0%Z) then clearTimeout id else mret tt
  | None => mret tt
  end;;
  id ← setTimeout r 450;
  setFetchTimer (Some id).

(** [onSelectGame], lines 131-150. *)
Definition onSelectGame (g : Game) : M unit :=
  setSelected (Some g);;
  setPlayerCount None;;
  setLoadingCount true;;
  await (ReqCount (countQuery g)) (KCount g).

Definition onSelectGame_done (count : option Z)
    (error : option PostgrestError) : M unit :=
  setLoadingCount false;;
  match error with
  | Some e =>
      consoleLog "count error";;
      setPlayerCount None
  | None => setPlayerCount (Some (default 0%Z count))
  end.

(** The effect run on mount, lines 49-74. *)
Definition mount : M unit :=
  setLoadingLocation true;;
  await ReqPermission KPermission.

Definition mount_permission (status : PermissionStatus) : M unit :=
  if bool_decide (status ≠ granted) then
    setLoadingLocation false;;
    alert "Location needed" "Enable location permission to find games near you."
  else await ReqPosition KPosition.

Definition mount_position (lat lng : float) : M unit :=
  let initial :=
    {| latitude := lat; longitude := lng;
       latitudeDelta := 0.06; longitudeDelta := 0.06 |} in
  setRegion (Some initial);;
  setLoadingLocation false;;
  fetchGamesInRegion initial.

(** The handlers wired in the JSX, lines 176-227. *)
Definition onRegionChangeComplete (r : Region) : M unit :=
  setRegion (Some r);;
  scheduleFetch r.

Definition onMarkerPress (g : Game) : M unit := onSelectGame g.
Definition onClosePress : M unit := setSelected None.
Definition onJoinPress : M unit :=
  alert "Next step" "We’ll wire Join/Leave next.".

(** The early return of the render, line 158: the map, its markers and the
    card exist only past it. *)
Definition mapShown (s : State) : bool :=
  negb (loadingLocation s || negb (bool_decide (is_Some (region s)))).

Definition cardShown (s : State) : bool :=
  mapShown s && bool_decide (is_Some (selected s)).

(** ** The event loop *)

Inductive Event :=
| Elapse (dt : Z)                        (* [dt] milliseconds go by *)
| Settle (task : nat) (resp : Response)  (* an awaited promise settles *)
| RegionChangeComplete (r : Region)      (* the map reports a viewport *)
| MarkerPress (i : nat)                  (* the marker of [games[i]] *)
| ClosePress
| JoinPress.

(** The callbacks of the timers that are due, in the order they were
    armed. *)
Fixpoint fire (due : list Timer) : M unit :=
  match due with
  | [] => mret tt
  | t :: due => fetchGamesInRegion (timer_region t);; fire due
  end.

Definition elapse (dt : Z) : M unit := fun w =>
  let t := (now w + dt)%Z in
  let due := filter (fun x => (deadline x ≤ t)%Z) (timers w) in
  let armed := filter (fun x => (t < deadline x)%Z) (timers w) in
  fire due (mkWorld (component w) t armed (nextTimer w) (pending w)
                    (nextTask w) (alerts w) (console w) (requests w)).

(** The piece of code a suspended function resumes with; [None] when the
    response is not one its request can get. *)
Definition resume (k : Cont) (resp : Response) : option (M unit) :=
  match k, resp with
  | KPermission, RPermission status => Some (mount_permission status)
  | KPosition, RPosition lat lng => Some (mount_position lat lng)
  | KPosition, RPositionRejected => Some (mret tt)
  | KAuth r, RSession session =>
      Some (ok ← ensureAuthedOrWarn_resume session;
            fetchGamesInRegion_authed r ok)
  | KGames, RGames data error => Some (fetchGamesInRegion_done data error)
  | KCount _, RCount count error => Some (onSelectGame_done count error)
  | _, _ => None
  end.

Definition forget (task : nat) (w : World) : World :=
  mkWorld (component w) (now w) (timers w) (nextTimer w)
          (delete task (pending w)) (nextTask w) (alerts w) (console w)
          (requests w).

Definition settle (task : nat) (resp : Response) (w : World) : option World :=
  k ← pending w !! task;
  m ← resume k resp;
  Some (exec m (forget task w)).

(** One event; [None] when it cannot happen in [w]. *)
Definition step (w : World) (e : Event) : option World :=
  match e with
  | Elapse dt =>
      if bool_decide (0 ≤ dt)%Z then Some (exec (elapse dt) w) else None
  | Settle task resp => settle task resp w
  | RegionChangeComplete r =>
      if mapShown (component w) then Some (exec (onRegionChangeComplete r) w)
      else None
  | MarkerPress i =>
      if mapShown (component w) then
        g ← games (component w) !! i;
        Some (exec (onMarkerPress g) w)
      else None
  | ClosePress =>
      if cardShown (component w) then Some (exec onClosePress w) else None
  | JoinPress =>
      if cardShown (component w) then Some (exec onJoinPress w) else None
  end.

Fixpoint run (w : World) (es : list Event) : option World :=
  match es with
  | [] => Some w
  | e :: es => w' ← step w e; run w' es
  end.

(** The first render: the initial values of the [useState] cells and of the
    ref, no timer armed (handles start at 1), nothing sent; then the
    effect. *)
Definition initialState : State :=
  mkState true None false [] None None false None.

Definition boot (t0 : Z) : World :=
  mkWorld initialState t0 [] 1 ∅ 0 [] [] [].

Definition startup (t0 : Z) : World := exec mount (boot t0).

Definition reachable (w : World) : Prop :=
  exists t0 es, run (startup t0) es = Some w.

(** ** Vocabulary of the properties *)

(** What [step] has sent: the requests of [w'] past those of [w]. *)
Definition sent (w w' : World) : list Request :=
  drop (length (requests w)) (requests w').

(** The read request of the session list in the words of the design: for
    the bounds of a viewport and the current time in milliseconds, active
    sessions that start no earlier than 3600 seconds ago inside the bounds,
    soonest first, 200 at most. *)
Definition sessionListQuery (b : Bounds) (currentTime : Z) : Query :=
  {| q_table := "games";
     q_columns :=
       "id,title,starts_at,location_name,lat,lng,max_players,skill_min,skill_max,status";
     q_count := None;
     q_head := false;
     q_filters :=
       [ FEq "status" (VStr "active");
         FGte "starts_at" (VDate (currentTime - 3600 * 1000));
         FGte "lat" (VNum (minLat b)); FLte "lat" (VNum (maxLat b));
         FGte "lng" (VNum (minLng b)); FLte "lng" (VNum (maxLng b)) ];
     q_order := Some ("starts_at", true);
     q_limit := Some 200%Z |}.

(** The two alerts of [fetchGamesInRegion]: the one of the authentication
    gate and the one of a failed query. *)
Definition notLoggedInAlert : string * string :=
  ("Not logged in",
   "Your database policies currently require login to view games. Add Auth next, or temporarily allow public read for games.").

Definition queryErrorAlert (e : PostgrestError) : string * string :=
  ("Error", message e).

(** The outcome of the count fetch as [onSelectGame] stores it. *)
Definition countShown (count : option Z) (error : option PostgrestError)
    : option Z :=
  match error with
  | Some _ => None
  | None => Some (default 0%Z count)
  end.

(** [clearTimeout] of the handle in the ref, when it is truthy. *)
Definition disarmed (w : World) : list Timer :=
  match fetchTimer (component w) with
  | Some id =>
      if bool_decide (id ≠ 0%Z)
      then filter (fun t => timer_id t ≠ id) (timers w)
      else timers w
  | None => timers w
  end.

(** *** A session of the screen, to try the properties on *)

Definition gameA : Game :=
  Game.mk "a" "Sunset doubles" "2026-07-01T18:00:00Z" (Some "Pier 25")
          40.01 (-74.01) 4 None None active.

Definition gameB : Game :=
  Game.mk "b" "Morning sixes" "2026-07-02T08:00:00Z" None
          39.99 (-73.99) 12 (Some 2%float) (Some 4%float) active.

(** The world after the events [es], from a start at time [t0]. *)
Definition after (t0 : Z) (es : list Event) : World :=
  default (boot t0) (run (startup t0) es).

(** Permission granted and the position found: the first fetch is at its
    authentication check (task 2). *)
Definition located : list Event :=
  [Settle 0 (RPermission granted); Settle 1 (RPosition 40 (-74))].

(** A session is there: the first query is out (task 3). *)
Definition authed : list Event :=
  located ++ [Settle 2 (RSession (Some (mkSession "token")))].

(** The query answered with two sessions. *)
Definition listed : list Event :=
  authed ++ [Settle 3 (RGames (Some [gameA; gameB]) None)].

(** The marker of [gameA] pressed: its count fetch is out (task 4). *)
Definition tapped : list Event := listed ++ [MarkerPress 0].

(** Instead, the user pans; the debounce timer fires and the second fetch
    passes its authentication check (task 4): its query is out (task 5). *)
Definition panned : list Event :=
  listed ++ [Elapse 500;
             RegionChangeComplete (mkRegion 41 (-74) 0.06 0.06);
             Elapse 450;
             Settle 4 (RSession (Some (mkSession "token")))].

(** A selection with its count on the card, then a viewport change whose
    fetch has reached its authentication check (task 5). *)
Definition countedThenPanned : list Event :=
  tapped ++ [Settle 4 (RCount (Some 7%Z) None);
             RegionChangeComplete (mkRegion 41 (-74) 0.06 0.06);
             Elapse 450].

(** *** Two overlapping selections

    Session [a] is selected, then session [b] before the count of [a] has
    settled; both count fetches then settle, in either order. *)

Definition selectTwice (i j : nat) : list Event :=
  [MarkerPress i; MarkerPress j].

(** The count of [a] settles first. *)
Definition settleInOrder (w : World) (ra rb : Response) : list Event :=
  [Settle (nextTask w) ra; Settle (S (nextTask w)) rb].

(** The count of [b] settles first. *)
Definition settleOutOfOrder (w : World) (ra rb : Response) : list Event :=
  [Settle (S (nextTask w)) rb; Settle (nextTask w) ra].

(** The design's requirement on the outcome: the card is on [b] and shows
    the count of [b], or is still loading; a count fetched for another
    session is discarded. *)
Definition stale_count_discarded : Prop :=
  forall (w w' : World) (i j : nat) (a b : Game) (ca cb : Z)
         (es : list Event),
    mapShown (component w) = true ->
    games (component w) !! i = Some a ->
    games (component w) !! j = Some b ->
    es = settleInOrder w (RCount (Some ca) None) (RCount (Some cb) None) \/
    es = settleOutOfOrder w (RCount (Some ca) None) (RCount (Some cb) None) ->
    run w (selectTwice i j ++ es) = Some w' ->
    selected (component w') = Some b /\
    (playerCount (component w') = Some cb \/
     loadingCount (component w') = true).

(** *** Startup *)

(** Nothing is suspended, no timer is armed and the map is not on screen:
    no handler of the component can run any more. *)
Definition halted (w : World) : Prop :=
  pending w = ∅ /\ timers w = [] /\ mapShown (component w) = false.

Definition locationNeededAlert : string * string :=
  ("Location needed", "Enable location permission to find games near you.").

(** *** The debounce *)

(** What the timer API and [scheduleFetch] keep true together: handles are
    positive and fresh, at most one timer is armed, and the ref holds the
    handle of the timer that is armed. *)
Definition timers_ok (w : World) : Prop :=
  (0 < nextTimer w)%Z /\
  length (timers w) <= 1 /\
  forall t, t ∈ timers w ->
    fetchTimer (component w) = Some (timer_id t) /\
    (0 < timer_id t < nextTimer w)%Z.

(** Viewport changes in a row: the first one, then each next one [gap]
    milliseconds after the one before it. *)
Fixpoint burst (r0 : Region) (rest : list (Z * Region)) : list Event :=
  RegionChangeComplete r0 ::
  match rest with
  | [] => []
  | (gap, r) :: rest => Elapse gap :: burst r rest
  end.

Fixpoint lastRegion (r0 : Region) (rest : list (Z * Region)) : Region :=
  match rest with
  | [] => r0
  | (_, r) :: rest => lastRegion r rest
  end.

(** Each gap is shorter than the delay of [scheduleFetch]. *)
Definition withinDebounce (rest : list (Z * Region)) : Prop :=
  Forall (fun p => (0 ≤ p.1 < 450)%Z) rest.

(** The session-list queries among what was sent. *)
Definition queriesSent (w w' : World) : list Query :=
  omap (fun req => match req with ReqGames q => Some q | _ => None end)
       (sent w w').

(** The design's statement of the debounce: a burst of viewport changes,
    the delay of the timer, and the fetch it starts has its authentication
    check answered; whatever the answer, exactly one session-list query
    has been issued, for the bounds of the last viewport. *)
Definition debounce_always_queries : Prop :=
  forall (w0 w3 : World) (r0 : Region) (rest : list (Z * Region)) (d : Z)
         (session : option Session),
    reachable w0 -> mapShown (component w0) = true ->
    withinDebounce rest -> (450 ≤ d)%Z ->
    run w0 (burst r0 rest
            ++ [Elapse d; Settle (nextTask w0) (RSession session)])
      = Some w3 ->
    exists t,
      queriesSent w0 w3
        = [sessionListQuery (regionToBounds (lastRegion r0 rest)) t].

(** The design's statement of the first fetch: once the position is
    found, and whatever the remote store answers to the authentication
    check, the query for the initial viewport has been issued. *)
Definition first_fetch_always_queries : Prop :=
  forall (t0 : Z) (lat lng : float) (session : option Session) (w3 : World),
    run (startup t0)
        [Settle 0 (RPermission granted); Settle 1 (RPosition lat lng);
         Settle 2 (RSession session)] = Some w3 ->
    queriesSent (startup t0) w3
      = [sessionListQuery (regionToBounds (mkRegion lat lng 0.06 0.06)) t0].

(** *** What is on screen *)

(** [headerText], lines 152-156; the count of games is printed in
    decimal. *)
Definition headerText (s : State) : string :=
  if loadingLocation s then "Getting your location…"
  else if loadingGames s then "Loading games…"
  else pretty (length (games s)) +:+ " game(s) in view".

(** The two screens of the render, lines 158-232: the activity indicator
    over the header text, or the map under the status bar. *)
Inductive View :=
| SpinnerView (text : string)
| MapScreenView (header : string).

Definition render (s : State) : View :=
  if loadingLocation s || negb (bool_decide (is_Some (region s)))
  then SpinnerView (headerText s)
  else MapScreenView (headerText s).

(** *** Viewport changes at any pace *)

(** The viewports of a row of changes that were followed by 450 ms or more
    without another change; the last one is not among them. *)
Fixpoint fired (r0 : Region) (rest : list (Z * Region)) : list Region :=
  match rest with
  | [] => []
  | (gap, r) :: rest =>
      (if bool_decide (450 ≤ gap)%Z then [r0] else []) ++ fired r rest
  end.

(** One fetch suspended at its authentication check for each region, on
    the tasks from [n] on. *)
Fixpoint suspendAll (rs : list Region) (n : nat) (p : gmap nat Cont)
    : gmap nat Cont :=
  match rs with
  | [] => p
  | r :: rs => suspendAll rs (S n) (<[n := KAuth r]> p)
  end.

(** Each gap is a lapse of time. *)
Definition gapsOk (rest : list (Z * Region)) : Prop :=
  Forall (fun p => (0 ≤ p.1)%Z) rest.

(** The authentication checks answered with a session among the events. *)
Definition sessionFound (e : Event) : bool :=
  match e with
  | Settle _ (RSession (Some _)) => true
  | _ => false
  end.

(** Two session-list queries are out at once: the first one, and the one
    of a viewport change made before the first is answered (tasks 3
    and 5). *)
Definition overlapped : list Event :=
  authed ++ [RegionChangeComplete (mkRegion 41 (-74) 0.06 0.06);
             Elapse 450;
             Settle 4 (RSession (Some (mkSession "token")))].

(** The last character of a string. *)
Fixpoint lastChar (s : string) : option Ascii.ascii :=
  match s with
  | EmptyString => None
  | String c EmptyString => Some c
  | String _ s => lastChar s
  end.

(** Every suspended function sits on a task that was handed out
    before. *)
Definition tasks_fresh (w : World) : Prop :=
  forall k, is_Some (pending w !! k) -> k < nextTask w.

(** The requests to the location service among those sent. *)
Definition isPermission (req : Request) : bool :=
  match req with ReqPermission => true | _ => false end.

Definition isPosition (req : Request) : bool :=
  match req with ReqPosition => true | _ => false end.

(** What the effect keeps true of the location service: the permission
    was asked once; the position was asked once at most, and not yet while
    the permission request is out, which it can only be on task 0. *)
Definition location_once (w : World) : Prop :=
  length (filter (fun req => isPermission req) (requests w)) = 1 /\
  length (filter (fun req => isPosition req) (requests w)) <= 1 /\
  1 <= nextTask w /\
  forall k, pending w !! k = Some KPermission ->
    k = 0 /\ length (filter (fun req => isPosition req) (requests w)) = 0.

(** The one resumption that asks for the position: the effect, with the
    permission granted. *)
Definition asksPosition (k : Cont) (resp : Response) : bool :=
  match k, resp with
  | KPermission, RPermission granted => true
  | _, _ => false
  end.

(** The players line of the card, line 210, for the selected session
    [sel]: the three texts it can take, the middle one kept as the two
    numbers of its template. *)
Inductive PlayersText :=
| PlayersEllipsis                            (* "…" *)
| PlayersOf (count : Z) (max_players : float)    (* [count]/[max_players] *)
| PlayersDash.                               (* "—" *)

Definition playersText (s : State) (sel : Game) : PlayersText :=
  if loadingCount s then PlayersEllipsis
  else match playerCount s with
       | Some count => PlayersOf count (Game.max_players sel)
       | None => PlayersDash
       end.

(** *** The bounding box on binary64 numbers *)

(** The design's statement of the ordering: positive spans are all it asks
    of a viewport. [<?] and [<=?] are JavaScript's [<] and [<=] on
    numbers. *)
Definition bounds_always_ordered : Prop :=
  forall r : Region,
    (0 <? latitudeDelta r)%float = true ->
    (0 <? longitudeDelta r)%float = true ->
    let b := regionToBounds r in
    (minLat b <=? maxLat b)%float = true /\
    (minLng b <=? maxLng b)%float = true.

(** [FloatAxioms] specifies the operations on [float] by those of
    [SpecFloat] on sign, mantissa and exponent. Three classes of its
    values: a zero or a finite number; *)
Definition SFfinite (x : spec_float) : bool :=
  match x with S754_zero _ | S754_finite _ _ _ => true | _ => false end.

(** a zero, or a finite or infinite number whose sign bit is [neg]; *)
Definition SFsigned (neg : bool) (x : spec_float) : bool :=
  match x with
  | S754_zero _ => true
  | S754_finite s _ _ | S754_infinity s => bool_decide (s = neg)
  | S754_nan => false
  end.

(** a finite or infinite number whose sign bit is [s], and no zero. *)
Definition SFsign (s : bool) (x : spec_float) : Prop :=
  match x with S754_finite s' _ _ | S754_infinity s' => s' = s | _ => False end.

(** Rounding in arithmetic. [shr_state M j] is the record that
    [SpecFloat.shr] reaches when it has shifted the mantissa [M] right by
    [j] bits: the quotient, the last bit shifted out, and whether a lower
    bit was set. [RNE M n] is [M / 2 ^ n] rounded to nearest, ties to even,
    and [rnd p] the mantissa [p] rounded to 53 significant bits. *)
Definition shr_state (M j : Z) : shr_record :=
  Build_shr_record (M / 2 ^ j)%Z (Z.odd (M / 2 ^ (j - 1))%Z)
    (negb (M mod 2 ^ (j - 1) =? 0)%Z).

Definition RNE (M n : Z) : Z :=
  round_nearest_even (shr_m (shr_state M n)) (loc_of_shr_record (shr_state M n)).

Definition rnd (p : positive) : Z :=
  let d := Zpos (digits2_pos p) in
  if (d <=? 53)%Z then Zpos p else (RNE (Zpos p) (d - 53) * 2 ^ (d - 53))%Z.

(** ** Properties *)

(** *** Binary64 arithmetic

    The rounding of [SpecFloat] brought to integer arithmetic, up to the
    order of [a - d / 2] and [a + d / 2] on [float]. *)

Section Rounding.
Local Open Scope Z_scope.

Lemma pow2_S (n : Z) : 0 <= n -> 2 ^ (n + 1) = 2 * 2 ^ n.
Proof. intros. rewrite Z.pow_add_r by lia. lia. Qed.

Lemma pow2_pos (n : Z) : 0 <= n -> 0 < 2 ^ n.
Proof. intros. apply Z.pow_pos_nonneg; lia. Qed.

(** The number of binary digits of a mantissa. *)

Lemma digits2_pos_bounds (p : positive) :
  2 ^ (Zpos (digits2_pos p) - 1) <= Zpos p < 2 ^ Zpos (digits2_pos p).
Proof.
  induction p as [p IH|p IH|]; cbn [digits2_pos].
  - rewrite Pos2Z.inj_succ, Pos2Z.inj_xI. unfold Z.succ.
    replace (Zpos (digits2_pos p) + 1 - 1) with (Zpos (digits2_pos p) - 1 + 1) by lia.
    rewrite !pow2_S by lia. lia.
  - rewrite Pos2Z.inj_succ, Pos2Z.inj_xO. unfold Z.succ.
    replace (Zpos (digits2_pos p) + 1 - 1) with (Zpos (digits2_pos p) - 1 + 1) by lia.
    rewrite !pow2_S by lia. lia.
  - cbn. lia.
Qed.

Lemma digits2_pos_unique (p : positive) (k : Z) :
  2 ^ (k - 1) <= Zpos p < 2 ^ k -> Zpos (digits2_pos p) = k.
Proof.
  intros [Hlo Hhi]. pose proof (digits2_pos_bounds p) as [Hlo' Hhi'].
  assert (0 < k).
  { destruct (Z.lt_ge_cases 0 k) as [|Hk]; [done|].
    destruct (Z.eq_dec k 0) as [->|]; [cbn in *; lia|].
    rewrite (Z.pow_neg_r 2 k) in Hhi by lia. lia. }
  destruct (Z.lt_trichotomy (Zpos (digits2_pos p)) k) as [Hlt|[Heq|Hgt]]; [|done|].
  - assert (2 ^ Zpos (digits2_pos p) <= 2 ^ (k - 1))
      by (apply Z.pow_le_mono_r; lia). lia.
  - assert (2 ^ k <= 2 ^ (Zpos (digits2_pos p) - 1))
      by (apply Z.pow_le_mono_r; lia). lia.
Qed.

(** Shifting a mantissa left. *)

Lemma iter_xO (d : positive) (m : positive) :
  Zpos (Pos.iter xO m d) = Zpos m * 2 ^ Zpos d.
Proof.
  induction d as [|d IH] using Pos.peano_ind.
  - cbn. lia.
  - rewrite Pos.iter_succ, Pos2Z.inj_xO, IH, Pos2Z.inj_succ. unfold Z.succ.
    rewrite pow2_S by lia. lia.
Qed.

Lemma shl_align_spec (m : positive) (e e' : Z) :
  e' <= e ->
  snd (shl_align m e e') = e' /\
  Zpos (fst (shl_align m e e')) = Zpos m * 2 ^ (e - e').
Proof.
  intros He. unfold shl_align.
  destruct (e' - e) as [|d|d] eqn:Hd; cbn [fst snd].
  - assert (e = e') as -> by lia. rewrite Z.sub_diag. cbn. lia.
  - lia.
  - split; [done|]. unfold shift_pos. rewrite iter_xO. f_equal. f_equal. lia.
Qed.

Lemma shl_align_ge (m : positive) (e e' : Z) :
  e <= e' -> shl_align m e e' = (m, e).
Proof.
  intros He. unfold shl_align.
  destruct (e' - e) as [|d|d] eqn:Hd; try done. lia.
Qed.

(** Shifting a mantissa right: [shr] computes [shr_state]. *)

Lemma iter_pos_nat {A} (f : A -> A) (n : positive) (x : A) :
  SpecFloat.iter_pos f n x = Nat.iter (Pos.to_nat n) f x.
Proof.
  revert x. induction n as [n IH|n IH|]; intros x; cbn [SpecFloat.iter_pos].
  - rewrite !IH, Pos2Nat.inj_xI, <- Nat.iter_add, <- Nat.iter_succ_r.
    f_equal. lia.
  - rewrite !IH, Pos2Nat.inj_xO, <- Nat.iter_add. f_equal. lia.
  - reflexivity.
Qed.

Lemma shr_1_nonneg (m : Z) (r s : bool) :
  0 <= m ->
  shr_1 (Build_shr_record m r s) = Build_shr_record (m / 2) (Z.odd m) (r || s).
Proof.
  intros Hm. rewrite <- Z.div2_div.
  destruct m as [|[p|p|]|p]; try reflexivity. lia.
Qed.

Lemma shr_iter (M : Z) (j : nat) :
  0 <= M ->
  Nat.iter (S j) shr_1 (Build_shr_record M false false)
  = shr_state M (Z.of_nat (S j)).
Proof.
  intros HM. induction j as [|j IH].
  - cbn [Nat.iter]. rewrite shr_1_nonneg by done. unfold shr_state.
    change (Z.of_nat 1 - 1) with 0. change (2 ^ 0) with 1.
    rewrite Z.div_1_r, Z.mod_1_r. reflexivity.
  - rewrite Nat.iter_succ, IH. unfold shr_state.
    set (k := Z.of_nat (S j)).
    assert (Hk : 1 <= k) by lia.
    replace (Z.of_nat (S (S j))) with (k + 1) by lia.
    replace (k + 1 - 1) with k by lia.
    assert (H2k : 0 < 2 ^ (k - 1)) by (apply pow2_pos; lia).
    assert (Hpk : 2 ^ k = 2 ^ (k - 1) * 2).
    { replace k with (k - 1 + 1) at 1 by lia. rewrite pow2_S by lia. lia. }
    rewrite shr_1_nonneg by (apply Z.div_pos; [done|apply pow2_pos; lia]).
    f_equal.
    + rewrite pow2_S by lia. rewrite Z.div_div by lia. f_equal. lia.
    + rewrite Hpk. rewrite Z.rem_mul_r by lia.
      destruct (Z.odd (M / 2 ^ (k - 1))) eqn:Hodd.
      * cbn [orb negb]. symmetry. apply negb_true_iff, Z.eqb_neq.
        rewrite Zmod_odd, Hodd.
        pose proof (Z.mod_pos_bound M (2 ^ (k - 1)) H2k). lia.
      * cbn [orb]. rewrite Zmod_odd, Hodd. f_equal. f_equal. lia.
Qed.

Lemma shr_spec (M e n : Z) :
  0 <= M -> 0 < n ->
  shr (Build_shr_record M false false) e n = (shr_state M n, e + n).
Proof.
  intros HM Hn. destruct n as [|p|p]; try lia. cbn [shr].
  rewrite iter_pos_nat.
  destruct (Pos.to_nat p) as [|j] eqn:Hj; [lia|].
  rewrite shr_iter by done. do 2 f_equal. lia.
Qed.

(** Rounding to nearest even is monotone. *)

Lemma fexp_eq (x : Z) : fexp prec emax x = Z.max (x - 53) (-1074).
Proof. reflexivity. Qed.

Lemma RNE_bounds (M n : Z) : M / 2 ^ n <= RNE M n <= M / 2 ^ n + 1.
Proof.
  unfold RNE, shr_state; cbn [shr_m loc_of_shr_record].
  destruct (Z.odd _), (negb _); cbn [round_nearest_even]; try lia.
  destruct (Z.even _); lia.
Qed.

Lemma RNE_mono (M1 M2 n : Z) :
  0 <= M1 <= M2 -> 0 < n -> RNE M1 n <= RNE M2 n.
Proof.
  intros HM Hn.
  assert (Hp : 0 < 2 ^ (n - 1)) by (apply pow2_pos; lia).
  assert (Hpn : 2 ^ n = 2 ^ (n - 1) * 2).
  { replace n with (n - 1 + 1) at 1 by lia. rewrite pow2_S by lia. lia. }
  assert (Hq : M1 / 2 ^ n <= M2 / 2 ^ n) by (apply Z.div_le_mono; lia).
  pose proof (RNE_bounds M1 n) as B1. pose proof (RNE_bounds M2 n) as B2.
  destruct (Z.eq_dec (M1 / 2 ^ n) (M2 / 2 ^ n)) as [Heq|]; [|lia].
  assert (Hh : M1 / 2 ^ (n - 1) <= M2 / 2 ^ (n - 1)) by (apply Z.div_le_mono; lia).
  assert (Hd : forall M, M / 2 ^ n = M / 2 ^ (n - 1) / 2)
    by (intros M; rewrite Hpn, Z.div_div by lia; done).
  pose proof (Z.div_mod (M1 / 2 ^ (n - 1)) 2 ltac:(lia)) as E1.
  pose proof (Z.div_mod (M2 / 2 ^ (n - 1)) 2 ltac:(lia)) as E2.
  rewrite <- Hd in E1, E2. rewrite Zmod_odd in E1, E2.
  pose proof (Z.div_mod M1 (2 ^ (n - 1)) ltac:(lia)) as F1.
  pose proof (Z.div_mod M2 (2 ^ (n - 1)) ltac:(lia)) as F2.
  pose proof (Z.mod_pos_bound M1 (2 ^ (n - 1)) Hp) as G1.
  pose proof (Z.mod_pos_bound M2 (2 ^ (n - 1)) Hp) as G2.
  unfold RNE, shr_state in *; cbn [shr_m loc_of_shr_record] in *.
  rewrite <- Heq in *.
  destruct (Z.odd (M1 / 2 ^ (n - 1))) eqn:O1;
    destruct (Z.odd (M2 / 2 ^ (n - 1))) eqn:O2;
    destruct (Z.eqb_spec (M1 mod 2 ^ (n - 1)) 0);
    destruct (Z.eqb_spec (M2 mod 2 ^ (n - 1)) 0);
    cbn [negb round_nearest_even]; try destruct (Z.even _); try lia.
  all: exfalso; nia.
Qed.

Lemma digits2_pos_mono (p1 p2 : positive) :
  Zpos p1 <= Zpos p2 -> Zpos (digits2_pos p1) <= Zpos (digits2_pos p2).
Proof.
  intros Hle. pose proof (digits2_pos_bounds p1). pose proof (digits2_pos_bounds p2).
  destruct (Z.le_gt_cases (Zpos (digits2_pos p1)) (Zpos (digits2_pos p2))); [done|].
  assert (2 ^ Zpos (digits2_pos p2) <= 2 ^ (Zpos (digits2_pos p1) - 1))
    by (apply Z.pow_le_mono_r; lia). lia.
Qed.

Lemma shifted_quotient (p : positive) (n : Z) :
  0 < n -> Zpos (digits2_pos p) = n + 53 ->
  2 ^ 52 <= Zpos p / 2 ^ n < 2 ^ 53.
Proof.
  intros Hn Hd. pose proof (digits2_pos_bounds p) as [Hlo Hhi].
  rewrite Hd in Hlo, Hhi.
  assert (Hp : 0 < 2 ^ n) by (apply pow2_pos; lia).
  replace (n + 53 - 1) with (n + 52) in Hlo by lia.
  rewrite Z.pow_add_r in Hlo, Hhi by lia.
  split.
  - apply Z.div_le_lower_bound; lia.
  - apply Z.div_lt_upper_bound; lia.
Qed.

Lemma rnd_mono (p1 p2 : positive) :
  Zpos p1 <= Zpos p2 -> rnd p1 <= rnd p2.
Proof.
  intros Hle. pose proof (digits2_pos_mono p1 p2 Hle) as Hd.
  pose proof (digits2_pos_bounds p1) as B1. pose proof (digits2_pos_bounds p2) as B2.
  unfold rnd.
  set (d1 := Zpos (digits2_pos p1)) in *. set (d2 := Zpos (digits2_pos p2)) in *.
  destruct (Z.leb_spec d1 53) as [H1|H1]; destruct (Z.leb_spec d2 53) as [H2|H2];
    try lia.
  - pose proof (shifted_quotient p2 (d2 - 53) ltac:(lia) ltac:(lia)) as Q2.
    pose proof (RNE_bounds (Zpos p2) (d2 - 53)) as R2.
    assert (0 < 2 ^ (d2 - 53)) by (apply pow2_pos; lia).
    assert (2 ^ d1 <= 2 ^ 53) by (apply Z.pow_le_mono_r; lia).
    assert (2 ^ 53 = 2 ^ 52 * 2) by reflexivity.
    assert (2 <= 2 ^ (d2 - 53)).
    { change 2 with (2 ^ 1) at 1. apply Z.pow_le_mono_r; lia. }
    nia.
  - pose proof (shifted_quotient p1 (d1 - 53) ltac:(lia) ltac:(lia)) as Q1.
    pose proof (shifted_quotient p2 (d2 - 53) ltac:(lia) ltac:(lia)) as Q2.
    pose proof (RNE_bounds (Zpos p1) (d1 - 53)) as R1.
    pose proof (RNE_bounds (Zpos p2) (d2 - 53)) as R2.
    destruct (Z.eq_dec d1 d2) as [Heq|Hne].
    + rewrite Heq. apply Z.mul_le_mono_nonneg_r; [apply Z.lt_le_incl, pow2_pos; lia|].
      rewrite <- Heq. apply RNE_mono; lia.
    + assert (0 < 2 ^ (d1 - 53)) by (apply pow2_pos; lia).
      assert (2 ^ (d2 - 53) = 2 ^ (d1 - 53) * 2 ^ (d2 - d1)).
      { rewrite <- Z.pow_add_r by lia. f_equal. lia. }
      assert (2 <= 2 ^ (d2 - d1)).
      { change 2 with (2 ^ 1) at 1. apply Z.pow_le_mono_r; lia. }
      assert (2 ^ 53 = 2 ^ 52 * 2) by reflexivity.
      nia.
Qed.

(** [binary_round] in arithmetic: the result is the canonical number of
    value [rnd p * 2 ^ e], or an infinity when that exceeds the format. *)

Lemma digits2_pos_shift (p m : positive) (k : Z) :
  0 <= k -> Zpos m = Zpos p * 2 ^ k ->
  Zpos (digits2_pos m) = Zpos (digits2_pos p) + k.
Proof.
  intros Hk Hm. apply digits2_pos_unique. rewrite Hm.
  pose proof (digits2_pos_bounds p) as [Hlo Hhi].
  assert (0 < 2 ^ k) by (apply pow2_pos; lia).
  replace (Zpos (digits2_pos p) + k - 1) with (Zpos (digits2_pos p) - 1 + k) by lia.
  rewrite !Z.pow_add_r by lia. nia.
Qed.

Lemma binary_round_aux_exact (s : bool) (m : positive) (E : Z) :
  E = Z.max (Zpos (digits2_pos m) + E - 53) (-1074) ->
  binary_round_aux prec emax s (Zpos m) E loc_Exact
  = if E <=? 971 then S754_finite s m E else S754_infinity s.
Proof.
  intros Hc. unfold binary_round_aux, shr_fexp.
  cbn [Zdigits2 shr_record_of_loc]. rewrite fexp_eq, <- Hc, Z.sub_diag.
  cbn [shr shr_m loc_of_shr_record round_nearest_even Zdigits2].
  rewrite fexp_eq, <- Hc, Z.sub_diag. cbn [shr shr_m]. reflexivity.
Qed.

Lemma binary_round_spec (s : bool) (p : positive) (e : Z) :
  -1074 <= e ->
  exists (m : positive) (E : Z),
    Zpos m * 2 ^ (E + 1074) = rnd p * 2 ^ (e + 1074) /\
    E = Z.max (Zpos (digits2_pos m) + E - 53) (-1074) /\
    binary_round prec emax s p e
    = if E <=? 971 then S754_finite s m E else S754_infinity s.
Proof.
  intros He. unfold binary_round, rnd. rewrite fexp_eq.
  set (d := Zpos (digits2_pos p)).
  destruct (Z.leb_spec d 53) as [Hd|Hd].
  - set (E := Z.max (d + e - 53) (-1074)).
    assert (HE : E <= e) by lia.
    destruct (shl_align_spec p e E HE) as [Hez Hmz].
    destruct (shl_align p e E) as [mz ez]. cbn [fst snd] in Hez, Hmz. subst ez.
    pose proof (digits2_pos_shift p mz (e - E) ltac:(lia) Hmz) as Hdig.
    fold d in Hdig.
    exists mz, E. split; [|split].
    + rewrite Hmz, <- Z.mul_assoc, <- Z.pow_add_r by lia. do 2 f_equal. lia.
    + lia.
    + apply binary_round_aux_exact. lia.
  - rewrite shl_align_ge by lia.
    pose proof (shifted_quotient p (d - 53) ltac:(lia) ltac:(lia)) as HQ.
    pose proof (RNE_bounds (Zpos p) (d - 53)) as HR.
    unfold binary_round_aux, shr_fexp. cbn [Zdigits2 shr_record_of_loc].
    fold d. rewrite fexp_eq.
    replace (Z.max (d + e - 53) (-1074) - e) with (d - 53) by lia.
    rewrite shr_spec by lia. fold (RNE (Zpos p) (d - 53)).
    set (R := RNE (Zpos p) (d - 53)) in *.
    destruct R as [|r|r] eqn:HRr; try lia.
    cbn [Zdigits2 shr_record_of_loc]. rewrite fexp_eq.
    assert (Hpow : 2 ^ (e + (d - 53) + 1074) = 2 ^ (d - 53) * 2 ^ (e + 1074)).
    { rewrite <- Z.pow_add_r by lia. f_equal. lia. }
    destruct (Z.eq_dec (Zpos r) (2 ^ 53)) as [Hc|Hc].
    + assert (Hdr : Zpos (digits2_pos r) = 54).
      { apply digits2_pos_unique. rewrite Hc. cbn. lia. }
      rewrite Hdr.
      replace (Z.max (54 + (e + (d - 53)) - 53) (-1074) - (e + (d - 53))) with 1
        by lia.
      rewrite shr_spec by lia. cbn [shr_state shr_m]. rewrite Hc.
      change (2 ^ 53 / 2 ^ 1) with (Zpos (2 ^ 52)%positive).
      exists (2 ^ 52)%positive, (e + (d - 53) + 1).
      split; [|split].
      * replace (e + (d - 53) + 1 + 1074) with (e + (d - 53) + 1074 + 1) by lia.
        rewrite pow2_S, Hpow by lia.
        change (Zpos (2 ^ 52)%positive) with (2 ^ 52).
        change (2 ^ 53) with (2 ^ 52 * 2). lia.
      * change (Zpos (digits2_pos (2 ^ 52)%positive)) with 53. lia.
      * reflexivity.
    + assert (Hdr : Zpos (digits2_pos r) = 53).
      { apply digits2_pos_unique. change (2 ^ (53 - 1)) with (2 ^ 52). lia. }
      rewrite Hdr.
      replace (Z.max (53 + (e + (d - 53)) - 53) (-1074) - (e + (d - 53))) with 0
        by lia.
      cbn [shr shr_m].
      exists r, (e + (d - 53)). split; [|split].
      * rewrite Hpow. lia.
      * lia.
      * reflexivity.
Qed.

(** Canonical numbers are ordered by exponent, then mantissa; so
    [binary_round] and [binary_normalize] are monotone. *)

Lemma canonical_order (m1 m2 : positive) (E1 E2 : Z) :
  E1 = Z.max (Zpos (digits2_pos m1) + E1 - 53) (-1074) ->
  E2 = Z.max (Zpos (digits2_pos m2) + E2 - 53) (-1074) ->
  Zpos m1 * 2 ^ (E1 + 1074) <= Zpos m2 * 2 ^ (E2 + 1074) ->
  E1 < E2 \/ (E1 = E2 /\ Zpos m1 <= Zpos m2).
Proof.
  intros H1 H2 Hle.
  pose proof (digits2_pos_bounds m1) as [L1 U1].
  pose proof (digits2_pos_bounds m2) as [L2 U2].
  destruct (Z.lt_trichotomy E1 E2) as [Hlt|[Heq|Hgt]]; [by left| |].
  - right. split; [done|]. subst E2.
    assert (0 < 2 ^ (E1 + 1074)) by (apply pow2_pos; lia). nia.
  - exfalso.
    assert (Hd1 : Zpos (digits2_pos m1) = 53) by lia.
    assert (Hd2 : Zpos (digits2_pos m2) <= 53) by lia.
    rewrite Hd1 in L1. change (2 ^ (53 - 1)) with (2 ^ 52) in L1.
    assert (2 ^ Zpos (digits2_pos m2) <= 2 ^ 53) by (apply Z.pow_le_mono_r; lia).
    assert (0 < 2 ^ (E2 + 1074)) by (apply pow2_pos; lia).
    assert (2 ^ (E1 + 1074) = 2 ^ (E2 + 1074) * 2 ^ (E1 - E2)).
    { rewrite <- Z.pow_add_r by lia. f_equal. lia. }
    assert (2 <= 2 ^ (E1 - E2)).
    { change 2 with (2 ^ 1) at 1. apply Z.pow_le_mono_r; lia. }
    change (2 ^ 53) with (2 ^ 52 * 2) in *.
    nia.
Qed.

Lemma binary_round_le (s : bool) (p1 p2 : positive) (e : Z) :
  -1074 <= e -> Zpos p1 <= Zpos p2 ->
  SFleb (binary_round prec emax s (if s then p2 else p1) e)
        (binary_round prec emax s (if s then p1 else p2) e) = true.
Proof.
  intros He Hle.
  destruct (binary_round_spec s p1 e He) as (m1 & E1 & V1 & C1 & R1).
  destruct (binary_round_spec s p2 e He) as (m2 & E2 & V2 & C2 & R2).
  assert (Hv : Zpos m1 * 2 ^ (E1 + 1074) <= Zpos m2 * 2 ^ (E2 + 1074)).
  { rewrite V1, V2. apply Z.mul_le_mono_nonneg_r;
      [apply Z.lt_le_incl, pow2_pos; lia|by apply rnd_mono]. }
  pose proof (canonical_order m1 m2 E1 E2 C1 C2 Hv) as Ho.
  unfold SFleb, SFcompare.
  destruct s; rewrite R1, R2;
    destruct (Z.leb_spec E1 971), (Z.leb_spec E2 971); try done; try lia.
  - destruct (Z.compare_spec E2 E1); try done; try lia.
    rewrite Pos.compare_cont_spec. cbn [Pos.switch_Eq].
    destruct (Pos.compare_spec m2 m1); try done; lia.
  - destruct (Z.compare_spec E1 E2); try done; try lia.
    rewrite Pos.compare_cont_spec. cbn [Pos.switch_Eq].
    destruct (Pos.compare_spec m1 m2); try done; lia.
Qed.

Lemma binary_round_sign (s : bool) (p : positive) (e : Z) :
  -1074 <= e ->
  (exists m E, binary_round prec emax s p e = S754_finite s m E) \/
  binary_round prec emax s p e = S754_infinity s.
Proof.
  intros He. destruct (binary_round_spec s p e He) as (m & E & _ & _ & ->).
  destruct (E <=? 971); eauto.
Qed.

Lemma binary_normalize_le (m1 m2 e : Z) :
  -1074 <= e -> m1 <= m2 ->
  SFleb (binary_normalize prec emax m1 e false)
        (binary_normalize prec emax m2 e false) = true.
Proof.
  intros He Hle. destruct m1 as [|p1|p1], m2 as [|p2|p2]; try lia;
    cbn [binary_normalize]; try reflexivity.
  - destruct (binary_round_sign false p2 e He) as [(m & E & ->)| ->]; reflexivity.
  - apply (binary_round_le false); done.
  - destruct (binary_round_sign true p1 e He) as [(m & E & ->)| ->]; reflexivity.
  - destruct (binary_round_sign true p1 e He) as [(m & E & ->)| ->];
      destruct (binary_round_sign false p2 e He) as [(m' & E' & ->)| ->];
      reflexivity.
  - apply (binary_round_le true p2 p1); [done|lia].
Qed.

(** Subtracting a number of one sign gives no more than adding it, and the
    other way round for the other sign. *)

Lemma valid_binary_emin (s : bool) (m : positive) (e : Z) :
  valid_binary (S754_finite s m e) = true -> -1074 <= e.
Proof.
  cbn [SpecFloat.valid_binary]. unfold bounded, canonical_mantissa.
  rewrite fexp_eq. intros [Hc _]%andb_true_iff. apply Z.eqb_eq in Hc. lia.
Qed.

Lemma SFcompare_refl (s : bool) (m : positive) (e : Z) :
  SFcompare (S754_finite s m e) (S754_finite s m e) = Some Eq.
Proof.
  cbn [SFcompare]. rewrite Z.compare_refl, Pos.compare_cont_refl.
  destruct s; reflexivity.
Qed.

Lemma SFleb_refl (x : spec_float) : x <> S754_nan -> SFleb x x = true.
Proof.
  destruct x as [s|[]| |s m e]; try done. intros _.
  unfold SFleb. by rewrite SFcompare_refl.
Qed.

Lemma SF_sub_add_order (neg : bool) (A H : spec_float) :
  valid_binary A = true -> valid_binary H = true ->
  A <> S754_nan -> SFsigned neg H = true ->
  SFfinite A = true \/ SFfinite H = true ->
  SFleb (if neg then SFadd prec emax A H else SFsub prec emax A H)
        (if neg then SFsub prec emax A H else SFadd prec emax A H) = true.
Proof.
  intros VA VH NA SH FAH.
  destruct A as [sa|sa| |sa ma ea]; try done;
    destruct H as [sh|sh| |sh mh eh]; try discriminate;
    cbn [SFsigned] in SH; try apply bool_decide_eq_true in SH; subst.
  - destruct neg, sa, sh; reflexivity.
  - destruct neg, sa; reflexivity.
  - destruct neg, sa; reflexivity.
  - destruct neg, sa; reflexivity.
  - by destruct FAH.
  - destruct neg, sa; reflexivity.
  - destruct neg; cbn [SFadd SFsub]; by apply SFleb_refl.
  - destruct neg, sa; reflexivity.
  - apply valid_binary_emin in VA, VH.
    pose proof (Pos2Z.is_pos (fst (shl_align mh eh (Z.min ea eh)))).
    destruct neg; cbn [SFadd SFsub]; apply binary_normalize_le;
      cbn [cond_Zopp]; lia.
Qed.

(** A quotient keeps the sign of its dividend. *)

Lemma iter_pos_invariant {A} (P : A -> Prop) (f : A -> A) :
  (forall x, P x -> P (f x)) ->
  forall (n : positive) (x : A), P x -> P (SpecFloat.iter_pos f n x).
Proof.
  intros Hf n. induction n as [n IH|n IH|]; intros x Hx;
    cbn [SpecFloat.iter_pos]; auto.
Qed.

Lemma shr_1_m_nonneg (mrs : shr_record) :
  0 <= shr_m mrs -> 0 <= shr_m (shr_1 mrs).
Proof.
  destruct mrs as [m r s]. cbn [shr_m]. intros Hm.
  rewrite shr_1_nonneg by done. cbn [shr_m]. apply Z.div_pos; lia.
Qed.

Lemma shr_m_nonneg (mrs : shr_record) (e n : Z) :
  0 <= shr_m mrs -> 0 <= shr_m (fst (shr mrs e n)).
Proof.
  intros Hm. destruct n as [|p|p]; cbn [shr fst]; try done.
  apply (iter_pos_invariant (fun x => 0 <= shr_m x)); [apply shr_1_m_nonneg|done].
Qed.

Lemma shr_fexp_m_nonneg (m e : Z) (l : location) :
  0 <= m -> 0 <= shr_m (fst (shr_fexp prec emax m e l)).
Proof.
  intros Hm. unfold shr_fexp. apply shr_m_nonneg. by destruct l as [|[]].
Qed.

Lemma round_nearest_even_nonneg (m : Z) (l : location) :
  0 <= m -> 0 <= round_nearest_even m l.
Proof.
  intros Hm. destruct l as [|[]]; cbn [round_nearest_even]; try lia.
  destruct (Z.even m); lia.
Qed.

Lemma binary_round_aux_signed (s : bool) (m e : Z) (l : location) :
  0 <= m -> SFsigned s (binary_round_aux prec emax s m e l) = true.
Proof.
  intros Hm. unfold binary_round_aux.
  pose proof (shr_fexp_m_nonneg m e l Hm) as H1.
  destruct (shr_fexp prec emax m e l) as [mrs' e']. cbn [fst] in H1.
  pose proof (shr_fexp_m_nonneg _ e' loc_Exact
    (round_nearest_even_nonneg _ (loc_of_shr_record mrs') H1)) as H2.
  destruct (shr_fexp prec emax _ e' loc_Exact) as [mrs'' e'']. cbn [fst] in H2.
  destruct (shr_m mrs'') as [|p|p]; [done| |lia].
  destruct (e'' <=? emax - prec); cbn [SFsigned]; by apply bool_decide_eq_true.
Qed.

Lemma SFdiv_core_binary_nonneg (m1 m2 : positive) (e1 e2 : Z) :
  0 <= fst (fst (SFdiv_core_binary prec emax (Zpos m1) e1 (Zpos m2) e2)).
Proof.
  unfold SFdiv_core_binary.
  set (s := e1 - e2 - _).
  set (m' := match s with Z0 => Zpos m1 | Zpos _ => Z.shiftl (Zpos m1) s | Zneg _ => 0 end).
  assert (Hm' : 0 <= m').
  { subst m'. destruct s; try lia. apply Z.shiftl_nonneg. lia. }
  pose proof (Z.div_pos m' (Zpos m2) Hm' ltac:(lia)) as Hq.
  unfold Z.div in Hq. destruct (Z.div_eucl m' (Zpos m2)) as [q r]. done.
Qed.

Lemma SFdiv_signed (s : bool) (D : spec_float) (m2 : positive) (e2 : Z) :
  match D with S754_finite s' _ _ | S754_infinity s' => s' = s | _ => False end ->
  SFsigned s (SFdiv prec emax D (S754_finite false m2 e2)) = true.
Proof.
  destruct D as [| s' | | s' m e]; try done; intros ->; cbn [SFdiv].
  - rewrite xorb_false_r. cbn. by apply bool_decide_eq_true.
  - rewrite xorb_false_r.
    pose proof (SFdiv_core_binary_nonneg m m2 e e2) as Hq.
    destruct (SFdiv_core_binary prec emax (Zpos m) e (Zpos m2) e2) as [[mz ez] lz].
    by apply binary_round_aux_signed.
Qed.

(** Halving a finite number does not overflow. *)

Lemma Zdigits2_le (x k : Z) : 0 <= k -> 0 <= x < 2 ^ k -> Zdigits2 x <= k.
Proof.
  intros Hk [Hx Hlt]. destruct x as [|p|p]; cbn [Zdigits2]; try lia.
  pose proof (digits2_pos_bounds p) as [Hlo _].
  destruct (Z.le_gt_cases (Zpos (digits2_pos p)) k); [done|].
  assert (2 ^ k <= 2 ^ (Zpos (digits2_pos p) - 1)) by (apply Z.pow_le_mono_r; lia).
  lia.
Qed.

Lemma Zdigits2_bound (x : Z) : 0 <= x -> 0 <= Zdigits2 x /\ x < 2 ^ Zdigits2 x.
Proof.
  intros Hx. destruct x as [|p|p]; cbn [Zdigits2]; try lia.
  pose proof (digits2_pos_bounds p). lia.
Qed.

Lemma shr_m_div (mrs : shr_record) (e n : Z) :
  0 <= shr_m mrs ->
  snd (shr mrs e n) = e + Z.max 0 n /\
  shr_m (fst (shr mrs e n)) = shr_m mrs / 2 ^ Z.max 0 n.
Proof.
  intros Hm. destruct n as [|p|p]; cbn [shr fst snd].
  - rewrite Z.div_1_r. lia.
  - split; [lia|]. rewrite iter_pos_nat, Z.max_r by lia.
    rewrite <- (positive_nat_Z p).
    induction (Pos.to_nat p) as [|j IH].
    + cbn. by rewrite Z.div_1_r.
    + rewrite Nat.iter_succ. revert IH. generalize (Nat.iter j shr_1 mrs).
      intros [m r s] IH. cbn [shr_m] in IH.
      assert (H0 : 0 <= m).
      { rewrite IH. apply Z.div_pos; [done|apply pow2_pos; lia]. }
      rewrite shr_1_nonneg by done. cbn [shr_m].
      rewrite IH, Nat2Z.inj_succ. unfold Z.succ. rewrite pow2_S by lia.
      rewrite Z.div_div by (try apply pow2_pos; lia). f_equal. lia.
  - rewrite Z.div_1_r. lia.
Qed.

Lemma round_nearest_even_le (m : Z) (l : location) :
  round_nearest_even m l <= m + 1.
Proof.
  destruct l as [|[]]; cbn [round_nearest_even]; try lia.
  destruct (Z.even m); lia.
Qed.

Lemma shr_record_of_loc_m (m : Z) (l : location) :
  shr_m (shr_record_of_loc m l) = m.
Proof. by destruct l as [|[]]. Qed.

Lemma binary_round_aux_no_overflow (s : bool) (m e : Z) (l : location) :
  0 <= m -> e <= 971 -> Zdigits2 m + e <= 1023 ->
  forall s', binary_round_aux prec emax s m e l <> S754_infinity s'.
Proof.
  intros Hm He Hd s'. unfold binary_round_aux, shr_fexp. rewrite fexp_eq.
  pose proof (Zdigits2_bound m Hm) as [Hdm0 Hdm].
  set (n1 := Z.max (Zdigits2 m + e - 53) (-1074) - e).
  pose proof (shr_m_div (shr_record_of_loc m l) e n1) as [He1 Hm1];
    [by rewrite shr_record_of_loc_m|].
  rewrite shr_record_of_loc_m in Hm1.
  destruct (shr (shr_record_of_loc m l) e n1) as [mrs' e1].
  cbn [fst snd] in He1, Hm1.
  set (m1 := round_nearest_even (shr_m mrs') (loc_of_shr_record mrs')).
  assert (Hq0 : 0 <= shr_m mrs').
  { rewrite Hm1. apply Z.div_pos; [done|apply pow2_pos; lia]. }
  pose proof (round_nearest_even_nonneg _ (loc_of_shr_record mrs') Hq0) as Hm10.
  pose proof (round_nearest_even_le (shr_m mrs') (loc_of_shr_record mrs')) as Hm1le.
  fold m1 in Hm10, Hm1le. clearbody m1.
  assert (Hd1 : Zdigits2 m1 + e1 <= 1024).
  { set (k := Z.max (Zdigits2 m - Z.max 0 n1) 0).
    assert (Hq : shr_m mrs' < 2 ^ k).
    { rewrite Hm1. apply Z.div_lt_upper_bound; [apply pow2_pos; lia|].
      rewrite <- Z.pow_add_r by lia.
      eapply Z.lt_le_trans; [exact Hdm|]. apply Z.pow_le_mono_r; lia. }
    assert (Zdigits2 m1 <= k + 1).
    { destruct (Z.eq_dec m1 (2 ^ k)) as [Heq|Hne].
      - destruct m1 as [|p1|p1]; try lia.
        cbn [Zdigits2]. rewrite (digits2_pos_unique p1 (k + 1)); [lia|].
        replace (k + 1 - 1) with k by lia. rewrite pow2_S by lia. lia.
      - pose proof (Zdigits2_le m1 k ltac:(lia) ltac:(lia)). lia. }
    lia. }
  rewrite fexp_eq.
  set (n2 := Z.max (Zdigits2 m1 + e1 - 53) (-1074) - e1).
  pose proof (shr_m_div (shr_record_of_loc m1 loc_Exact) e1 n2) as [He2 Hm2];
    [by rewrite shr_record_of_loc_m|].
  destruct (shr (shr_record_of_loc m1 loc_Exact) e1 n2) as [mrs'' e2].
  cbn [fst snd] in He2, Hm2.
  destruct (shr_m mrs'') as [|p|p]; try done.
  rewrite (proj2 (Z.leb_le e2 (emax - prec))); [done|].
  change (emax - prec) with 971. lia.
Qed.

Lemma SFdiv_two_no_overflow (s : bool) (m : positive) (e : Z) :
  valid_binary (S754_finite s m e) = true ->
  forall s',
    SFdiv prec emax (S754_finite s m e) (S754_finite false 4503599627370496 (-51))
    <> S754_infinity s'.
Proof.
  cbn [SpecFloat.valid_binary]. unfold bounded, canonical_mantissa.
  rewrite fexp_eq. intros [Hc He]%andb_true_iff s'.
  apply Z.eqb_eq in Hc. apply Z.leb_le in He. change (emax - prec) with 971 in He.
  cbn [SFdiv].
  pose proof (SFdiv_core_binary_nonneg m 4503599627370496 e (-51)) as Hq0.
  assert (Hb : let '(q, e', _) :=
                 SFdiv_core_binary prec emax (Zpos m) e 4503599627370496 (-51) in
               e' <= 971 /\ Zdigits2 q + e' <= 1023).
  { unfold SFdiv_core_binary. rewrite fexp_eq. cbn [Zdigits2].
    change (Zpos (digits2_pos 4503599627370496)) with 53.
    set (d := Zpos (digits2_pos m)) in *.
    pose proof (digits2_pos_bounds m) as [_ Hm]. fold d in Hm.
    set (e' := Z.min (Z.max (d + e - (53 + -51) - 53) (-1074)) (e - -51)).
    set (sh := e - -51 - e').
    set (m' := match sh with
               | 0 => Zpos m | Zpos _ => Z.shiftl (Zpos m) sh | Zneg _ => 0 end).
    assert (Hsh : 0 <= sh) by lia.
    assert (Hm' : m' = Zpos m * 2 ^ sh).
    { subst m'. destruct sh as [|p|p] eqn:Hs; try lia.
      rewrite Z.shiftl_mul_pow2 by lia. done. }
    pose proof (Z.div_pos m' 4503599627370496 ltac:(rewrite Hm'; pose proof (pow2_pos sh Hsh); nia)
                  ltac:(lia)) as Hq.
    assert (Hqlt : m' / 4503599627370496 < 2 ^ Z.max (d + sh - 52) 0).
    { apply Z.div_lt_upper_bound; [lia|]. rewrite Hm'.
      change 4503599627370496 with (2 ^ 52). rewrite <- Z.pow_add_r by lia.
      assert (Zpos m * 2 ^ sh < 2 ^ (d + sh)).
      { rewrite Z.pow_add_r by lia. pose proof (pow2_pos sh Hsh). nia. }
      eapply Z.lt_le_trans; [eassumption|]. apply Z.pow_le_mono_r; lia. }
    pose proof (Zdigits2_le (m' / 4503599627370496) (Z.max (d + sh - 52) 0)
                  ltac:(lia) (conj Hq Hqlt)) as Hdq.
    unfold Z.div in Hq, Hdq. destruct (Z.div_eucl m' 4503599627370496) as [q r].
    lia. }
  destruct (SFdiv_core_binary prec emax (Zpos m) e 4503599627370496 (-51))
    as [[q e'] lz]. cbn [fst] in Hq0. destruct Hb as [Hb1 Hb2].
  by apply binary_round_aux_no_overflow.
Qed.

(** The same on [float], through [FloatAxioms]. *)

Lemma Prim2SF_not_nan (a : float) : is_nan a = false -> Prim2SF a <> S754_nan.
Proof.
  unfold is_nan. rewrite FloatAxioms.eqb_spec. intros Ha Hn.
  rewrite Hn in Ha. discriminate.
Qed.

Lemma Prim2SF_infinity (a : float) (s : bool) :
  Prim2SF a = S754_infinity s -> is_infinity a = true.
Proof.
  intros Ha. unfold is_infinity. rewrite FloatAxioms.eqb_spec, abs_spec, Ha.
  reflexivity.
Qed.

Lemma Prim2SF_positive (d : float) :
  (0 <? d)%float = true -> SFsign false (Prim2SF d).
Proof.
  rewrite ltb_spec. change (Prim2SF 0) with (S754_zero false).
  destruct (Prim2SF d) as [s|[]| |[] m e]; done.
Qed.

Lemma Prim2SF_negative (d : float) :
  (d <? 0)%float = true -> SFsign true (Prim2SF d).
Proof.
  rewrite ltb_spec. change (Prim2SF 0) with (S754_zero false).
  destruct (Prim2SF d) as [s|[]| |[] m e]; done.
Qed.

Lemma half_signed (s : bool) (d : float) :
  SFsign s (Prim2SF d) -> SFsigned s (Prim2SF (d / 2)%float) = true.
Proof.
  intros Hd. rewrite div_spec.
  change (Prim2SF 2) with (S754_finite false 4503599627370496 (-51)).
  by apply SFdiv_signed.
Qed.

Lemma half_finite (s : bool) (d : float) :
  SFsign s (Prim2SF d) -> is_infinity d = false ->
  SFfinite (Prim2SF (d / 2)%float) = true.
Proof.
  intros Hd Hi. pose proof (half_signed s d Hd) as Hs.
  pose proof (Prim2SF_valid d) as Hv. rewrite div_spec in *. unfold SF64div in *.
  change (Prim2SF 2) with (S754_finite false 4503599627370496 (-51)) in *.
  destruct (Prim2SF d) as [s0|s0| |s0 m e] eqn:HD; try done.
  - by rewrite (Prim2SF_infinity d s0 HD) in Hi.
  - pose proof (SFdiv_two_no_overflow s0 m e Hv) as Hno.
    destruct (SFdiv prec emax _ _) as [| s1 | |]; try done.
    by destruct (Hno s1).
Qed.

Lemma half_step_order (neg : bool) (a d : float) :
  is_nan a = false -> is_infinity a && is_infinity d = false ->
  SFsign neg (Prim2SF d) ->
  SFleb (if neg then SF64add (Prim2SF a) (Prim2SF (d / 2)%float)
         else SF64sub (Prim2SF a) (Prim2SF (d / 2)%float))
        (if neg then SF64sub (Prim2SF a) (Prim2SF (d / 2)%float)
         else SF64add (Prim2SF a) (Prim2SF (d / 2)%float)) = true.
Proof.
  intros Ha Hi Hd.
  apply (SF_sub_add_order neg); auto using Prim2SF_valid, Prim2SF_not_nan, half_signed.
  destruct (Prim2SF a) as [sa|sa| |sa ma ea] eqn:HA; auto.
  - right. rewrite (Prim2SF_infinity a sa HA) in Hi. eauto using half_finite.
  - by destruct (Prim2SF_not_nan a Ha).
Qed.

Lemma sub_half_le_add_half (a d : float) :
  is_nan a = false -> is_infinity a && is_infinity d = false ->
  (0 <? d)%float = true ->
  (a - d / 2 <=? a + d / 2)%float = true.
Proof.
  intros Ha Hi Hd. rewrite leb_spec, sub_spec, add_spec.
  apply (half_step_order false a d Ha Hi), Prim2SF_positive, Hd.
Qed.

Lemma add_half_le_sub_half (a d : float) :
  is_nan a = false -> is_infinity a && is_infinity d = false ->
  (d <? 0)%float = true ->
  (a + d / 2 <=? a - d / 2)%float = true.
Proof.
  intros Ha Hi Hd. rewrite leb_spec, sub_spec, add_spec.
  apply (half_step_order true a d Ha Hi), Prim2SF_negative, Hd.
Qed.

Lemma zero_span_collapses (a d : float) :
  is_nan a = false -> (d =? 0)%float = true ->
  (a - d / 2 =? a)%float = true /\ (a + d / 2 =? a)%float = true.
Proof.
  intros Ha Hd. pose proof (Prim2SF_not_nan a Ha) as Hn.
  rewrite !FloatAxioms.eqb_spec, sub_spec, add_spec, div_spec in *.
  change (Prim2SF 2) with (S754_finite false 4503599627370496 (-51)).
  change (Prim2SF 0) with (S754_zero false) in Hd.
  destruct (Prim2SF d) as [sd|[]| |[] md ed]; try done.
  unfold SFeqb.
  destruct (Prim2SF a) as [sa|sa| |sa ma ea]; try done; cbn [SFdiv SF64div SF64sub SF64add SFsub SFadd];
    rewrite ?SFcompare_refl; try (by destruct sa, sd).
Qed.

End Rounding.

(** C4. For a viewport with positive spans whose centre coordinates are
    numbers (not NaN), neither of them infinite together with an infinite
    span, the bounds are ordered, [minLat <= maxLat] and
    [minLng <= maxLng], and they are the binary64 results of
    [centre - span/2] and [centre + span/2]. The viewport
    [{lat 40.0, lng -74.0, latSpan 0.06, lngSpan 0.06}] maps to
    [{39.97, 40.03, -74.03, -73.97}], the numbers these literals denote. *)
Theorem regionToBounds_ordered_symmetric :
  (forall r : Region,
      is_nan (latitude r) = false -> is_nan (longitude r) = false ->
      is_infinity (latitude r) && is_infinity (latitudeDelta r) = false ->
      is_infinity (longitude r) && is_infinity (longitudeDelta r) = false ->
      (0 <? latitudeDelta r)%float = true ->
      (0 <? longitudeDelta r)%float = true ->
      let b := regionToBounds r in
      ((minLat b <=? maxLat b)%float = true /\
       (minLng b <=? maxLng b)%float = true) /\
      (minLat b = (latitude r - latitudeDelta r / 2)%float /\
       maxLat b = (latitude r + latitudeDelta r / 2)%float /\
       minLng b = (longitude r - longitudeDelta r / 2)%float /\
       maxLng b = (longitude r + longitudeDelta r / 2)%float)) /\
  regionToBounds (mkRegion 40.0 (-74.0) 0.06 0.06)
  = mkBounds 39.97 40.03 (-74.03) (-73.97).
Proof.
  split.
  - intros [a b c d]. unfold regionToBounds.
    cbn [minLat maxLat minLng maxLng
         latitude longitude latitudeDelta longitudeDelta].
    intros Ha Hb Hac Hbd Hc Hd.
    repeat split; by apply sub_half_le_add_half.
  - vm_compute. reflexivity.
Qed.

Lemma regionToBounds_ordered_symmetric_witness :
  let b := regionToBounds (mkRegion 40.0 (-74.0) 0.06 0.06) in
  (minLat b <=? maxLat b)%float = true /\
  (minLng b <=? maxLng b)%float = true.
Proof.
  apply (proj1 regionToBounds_ordered_symmetric
               (mkRegion 40.0 (-74.0) 0.06 0.06)); reflexivity.
Defined.

(** Positive spans alone do not order the bounds: with a centre latitude
    that is NaN, [minLat] and [maxLat] are NaN, and [NaN <= NaN] is
    false. *)
Lemma regionToBounds_unordered_at_nan : ~ bounds_always_ordered.
Proof.
  intros Hclaim.
  destruct (Hclaim (mkRegion nan (-74.0) 0.06 0.06) eq_refl eq_refl)
    as [Hlat _].
  vm_compute in Hlat. discriminate.
Qed.

(** Nor do they at an infinite centre with an infinite span, where
    [minLat] is [Infinity - Infinity]. And the centre need not be as far
    from [min] as from [max]: the two differences are rounded apart at
    centre 0.1 and span 0.4. *)
Lemma regionToBounds_rounding_examples :
  (let b := regionToBounds (mkRegion infinity (-74.0) infinity 0.06) in
   (minLat b <=? maxLat b)%float = false) /\
  (let r := mkRegion 0.1 0.1 0.4 0.4 in
   let b := regionToBounds r in
   (latitude r - minLat b =? maxLat b - latitude r)%float = false).
Proof. split; vm_compute; reflexivity. Qed.

(** *** Single steps of the suspended functions *)

(** What a settled promise runs, once its continuation is known. *)
Lemma settle_resume (w : World) (task : nat) (k : Cont) (resp : Response)
    (m : M unit) :
  pending w !! task = Some k -> resume k resp = Some m ->
  step w (Settle task resp) = Some (exec m (forget task w)).
Proof. intros Hk Hm. cbn. unfold settle. rewrite Hk. cbn. rewrite Hm. done. Qed.

Lemma sent_app (w w' : World) (new : list Request) :
  requests w' = requests w ++ new -> sent w w' = new.
Proof. intros H. unfold sent. rewrite H. apply drop_app_length. Qed.

Lemma gamesQuery_sessionListQuery (b : Bounds) (t : Z) :
  gamesQuery b (VDate (t - 60 * 60 * 1000)) = sessionListQuery b t.
Proof. reflexivity. Qed.

(** The count fetch settles. *)
Lemma onSelectGame_done_spec (w : World) (task : nat) (g : Game)
    (count : option Z) (error : option PostgrestError) :
  pending w !! task = Some (KCount g) ->
  exists w',
    step w (Settle task (RCount count error)) = Some w' /\
    playerCount (component w') = countShown count error /\
    loadingCount (component w') = false /\
    selected (component w') = selected (component w) /\
    games (component w') = games (component w) /\
    alerts w' = alerts w /\
    requests w' = requests w /\
    pending w' = delete task (pending w) /\
    nextTask w' = nextTask w.
Proof.
  intros Hk. eexists. split.
  - eapply settle_resume; [exact Hk | reflexivity].
  - destruct error; cbn; auto 10.
Qed.

(** The authentication check settles without a session. *)
Lemma auth_refused_spec (w : World) (task : nat) (r : Region) :
  pending w !! task = Some (KAuth r) ->
  exists w',
    step w (Settle task (RSession None)) = Some w' /\
    component w' = component w /\
    requests w' = requests w /\
    alerts w' = alerts w ++ [notLoggedInAlert] /\
    pending w' = delete task (pending w) /\
    timers w' = timers w /\
    nextTask w' = nextTask w.
Proof.
  intros Hk. eexists. split.
  - eapply settle_resume; [exact Hk | reflexivity].
  - destruct w as [[] ? ? ? ? ? ? ? ?]. cbn. auto 10.
Qed.

(** The authentication check settles with a session: the selection is
    cleared in [cleared], and from there the read request goes out. *)
Lemma auth_granted_spec (w : World) (task : nat) (r : Region) (s : Session) :
  pending w !! task = Some (KAuth r) ->
  exists cleared w',
    step w (Settle task (RSession (Some s))) = Some w' /\
    selected (component cleared) = None /\
    playerCount (component cleared) = None /\
    loadingGames (component cleared) = true /\
    games (component cleared) = games (component w) /\
    requests cleared = requests w /\
    w' = exec (await (ReqGames (sessionListQuery (regionToBounds r) (now w)))
                     KGames) cleared /\
    nextTask cleared = nextTask w /\
    pending cleared = delete task (pending w) /\
    alerts cleared = alerts w /\
    timers cleared = timers w /\
    now cleared = now w.
Proof.
  intros Hk. eexists _, _. split.
  - eapply settle_resume; [exact Hk | reflexivity].
  - destruct w as [[] ? ? ? ? ? ? ? ?]. cbn.
    repeat split; reflexivity.
Qed.

(** The session-list query settles. *)
Lemma fetchGamesInRegion_done_spec (w : World) (task : nat)
    (data : option (list Game)) (error : option PostgrestError) :
  pending w !! task = Some KGames ->
  exists w',
    step w (Settle task (RGames data error)) = Some w' /\
    games (component w') =
      match error with
      | Some _ => games (component w)
      | None => default [] data
      end /\
    alerts w' =
      match error with
      | Some e => alerts w ++ [queryErrorAlert e]
      | None => alerts w
      end /\
    loadingGames (component w') = false /\
    selected (component w') = selected (component w) /\
    playerCount (component w') = playerCount (component w) /\
    requests w' = requests w.
Proof.
  intros Hk. eexists. split.
  - eapply settle_resume; [exact Hk | reflexivity].
  - destruct error; cbn; auto 10.
Qed.

(** *** What a step sends *)

(** Due timers start one fetch each, that is one authentication check
    each, and nothing else. *)
Lemma exec_bind {A B} (m : M A) (f : A -> M B) (w : World) :
  exec (m ≫= f) w = exec (f (m w).1) (exec m w).
Proof. unfold exec, mbind, M_bind. destruct (m w). done. Qed.

Lemma fire_spec (due : list Timer) (w : World) :
  requests (exec (fire due) w)
    = requests w ++ ((fun _ => ReqGetSession) <$> due) /\
  component (exec (fire due) w) = component w /\
  timers (exec (fire due) w) = timers w /\
  nextTimer (exec (fire due) w) = nextTimer w /\
  now (exec (fire due) w) = now w /\
  alerts (exec (fire due) w) = alerts w.
Proof.
  revert w. induction due as [|t due IH]; intros w; cbn [fire].
  - cbn. rewrite app_nil_r. done.
  - rewrite exec_bind.
    destruct (IH (exec (fetchGamesInRegion (timer_region t)) w))
      as (Hr & Hc & Ht & Hn & Hnow & Ha).
    rewrite Hr, Hc, Ht, Hn, Hnow, Ha. cbn.
    rewrite <- app_assoc. done.
Qed.

Lemma exec_elapse (dt : Z) (w : World) :
  exec (elapse dt) w =
  exec (fire (filter (fun x => (deadline x ≤ now w + dt)%Z) (timers w)))
       (mkWorld (component w) (now w + dt)
                (filter (fun x => (now w + dt < deadline x)%Z) (timers w))
                (nextTimer w) (pending w) (nextTask w) (alerts w) (console w)
                (requests w)).
Proof. reflexivity. Qed.

Lemma scheduleFetch_spec (r : Region) (w : World) :
  exec (scheduleFetch r) w =
  mkWorld (mkState (loadingLocation (component w)) (region (component w))
                   (loadingGames (component w)) (games (component w))
                   (selected (component w)) (playerCount (component w))
                   (loadingCount (component w)) (Some (nextTimer w)))
          (now w)
          (disarmed w ++ [mkTimer (nextTimer w) (now w + 450) r])
          (nextTimer w + 1) (pending w) (nextTask w) (alerts w) (console w)
          (requests w).
Proof.
  destruct w as [[? ? ? ? ? ? ? [id|]] ? ? ? ? ? ? ? ?];
    unfold scheduleFetch, disarmed, exec, mbind, M_bind, getFetchTimer;
    cbn; [|done].
  case_bool_decide; done.
Qed.

(** The only step that sends a session-list query is the settling of an
    authentication check with a session; it sends that query alone. *)
Lemma step_sent (w w' : World) (e : Event) :
  step w e = Some w' ->
  exists new,
    requests w' = requests w ++ new /\
    ((forall q, ReqGames q ∉ new) \/
     (exists task r s,
         e = Settle task (RSession (Some s)) /\
         pending w !! task = Some (KAuth r) /\
         new = [ReqGames (sessionListQuery (regionToBounds r) (now w))])).
Proof.
  destruct e as [dt|task resp|r|i| |]; cbn -[elapse].
  - case_bool_decide; [|done]. intros [= <-].
    eexists. split.
    + change ((elapse dt w).2) with (exec (elapse dt) w).
      rewrite exec_elapse, (proj1 (fire_spec _ _)). reflexivity.
    + left. intros q Hq. apply list_elem_of_fmap in Hq as (? & [=] & _).
  - unfold settle. destruct (pending w !! task) as [k|] eqn:Hk; [|done]. cbn.
    destruct k, resp as [status| | |[s|]| |]; cbn; try done; intros [= <-].
    + destruct status; cbn.
      * exists [ReqPosition]. split; [done|]. left. intros q Hq.
        apply list_elem_of_singleton in Hq. done.
      * exists []. split; [by rewrite app_nil_r|]. left. intros q Hq.
        by apply elem_of_nil in Hq.
      * exists []. split; [by rewrite app_nil_r|]. left. intros q Hq.
        by apply elem_of_nil in Hq.
    + exists [ReqGetSession]. split; [done|]. left. intros q Hq.
      apply list_elem_of_singleton in Hq. done.
    + exists []. split; [by rewrite app_nil_r|]. left. intros q Hq.
      by apply elem_of_nil in Hq.
    + eexists. split; [reflexivity|]. right. eauto 10.
    + exists []. split; [by rewrite app_nil_r|]. left. intros q Hq.
      by apply elem_of_nil in Hq.
    + exists []. split; [destruct error; cbn; by rewrite app_nil_r|].
      left. intros q Hq. by apply elem_of_nil in Hq.
    + exists []. split; [destruct error; cbn; by rewrite app_nil_r|].
      left. intros q Hq. by apply elem_of_nil in Hq.
  - destruct (mapShown (component w)); [|done]. intros [= <-].
    exists []. split.
    + rewrite app_nil_r. unfold onRegionChangeComplete.
      change ((?m w).2) with (exec m w).
      rewrite exec_bind, scheduleFetch_spec. done.
    + left. intros q Hq. by apply elem_of_nil in Hq.
  - destruct (mapShown (component w)); [|done].
    destruct (games (component w) !! i) as [g|]; [|done]. cbn.
    intros [= <-]. exists [ReqCount (countQuery g)]. split; [done|].
    left. intros q Hq. apply list_elem_of_singleton in Hq. done.
  - destruct (cardShown (component w)); [|done]. intros [= <-].
    exists []. split; [by rewrite app_nil_r|]. left. intros q Hq.
    by apply elem_of_nil in Hq.
  - destruct (cardShown (component w)); [|done]. intros [= <-].
    exists []. split; [by rewrite app_nil_r|]. left. intros q Hq.
    by apply elem_of_nil in Hq.
Qed.

(** *** The session-list query *)

(** C2. Every session-list query a step sends is the one the design
    describes, for the bounds of the viewport [r] of the fetch and the
    current time: status active, start no earlier than 3600 seconds ago,
    latitude and longitude within the bounds, ordered by start ascending,
    capped at 200. When the query succeeds, the rows it returns become the
    visible session list. *)
Theorem session_list_query_shape :
  (forall (w w' : World) (e : Event) (q : Query),
      step w e = Some w' -> ReqGames q ∈ sent w w' ->
      exists task r,
        pending w !! task = Some (KAuth r) /\
        q = sessionListQuery (regionToBounds r) (now w) /\
        sent w w' = [ReqGames q]) /\
  (forall (w : World) (task : nat) (data : option (list Game)),
      pending w !! task = Some KGames ->
      exists w',
        step w (Settle task (RGames data None)) = Some w' /\
        games (component w') = default [] data /\
        (forall rows, data = Some rows -> games (component w') = rows)).
Proof.
  split.
  - intros w w' e q Hstep Hq.
    destruct (step_sent w w' e Hstep) as (new & Hreq & Hnew).
    rewrite (sent_app _ _ _ Hreq) in Hq |- *.
    destruct Hnew as [Hno | (task & r & s & -> & Hk & ->)].
    + by apply Hno in Hq.
    + apply list_elem_of_singleton in Hq as [= ->]. eauto.
  - intros w task data Hk.
    destruct (fetchGamesInRegion_done_spec w task data None Hk)
      as (w' & Hstep & Hg & _).
    exists w'. split; [done|]. split; [done|].
    intros rows ->. done.
Qed.

Lemma session_list_query_shape_witness :
  (exists task r,
      pending (after 0 located) !! task = Some (KAuth r) /\
      sent (after 0 located) (after 0 authed)
        = [ReqGames (sessionListQuery (regionToBounds r) 0)]) /\
  (exists w',
      step (after 0 authed) (Settle 3 (RGames (Some [gameA; gameB]) None))
        = Some w' /\
      games (component w') = [gameA; gameB]).
Proof.
  split.
  - destruct (proj1 session_list_query_shape
                (after 0 located) (after 0 authed)
                (Settle 2 (RSession (Some (mkSession "token"))))
                (sessionListQuery
                   (regionToBounds (mkRegion 40 (-74) 0.06 0.06)) 0))
      as (task & r & Hk & Hq & Hs).
    + vm_compute. reflexivity.
    + vm_compute. apply list_elem_of_here.
    + exists task, r. split; [exact Hk|]. rewrite Hs, Hq. reflexivity.
  - destruct (proj2 session_list_query_shape
                (after 0 authed) 3 (Some [gameA; gameB]))
      as (w' & Hstep & Hg & _).
    + vm_compute. reflexivity.
    + exists w'. split; [exact Hstep | exact Hg].
Defined.

(** C7. Whenever a step sends a session-list query, the selected session
    and its player count are cleared before the request goes out (the
    request is sent from the world [cleared]), and they are still cleared
    when the query settles, with rows or with an error. *)
Theorem selection_cleared_before_query :
  forall (w w1 : World) (e : Event) (q : Query),
    step w e = Some w1 -> ReqGames q ∈ sent w w1 ->
    exists cleared,
      selected (component cleared) = None /\
      playerCount (component cleared) = None /\
      requests cleared = requests w /\
      w1 = exec (await (ReqGames q) KGames) cleared /\
      forall (data : option (list Game)) (error : option PostgrestError),
      exists w2,
        step w1 (Settle (nextTask w) (RGames data error)) = Some w2 /\
        selected (component w2) = None /\
        playerCount (component w2) = None.
Proof.
  intros w w1 e q Hstep Hq.
  destruct (step_sent w w1 e Hstep) as (new & Hreq & Hnew).
  rewrite (sent_app _ _ _ Hreq) in Hq.
  destruct Hnew as [Hno | (task & r & s & -> & Hk & ->)];
    [by apply Hno in Hq|].
  apply list_elem_of_singleton in Hq as [= ->].
  destruct (auth_granted_spec w task r s Hk)
    as (cleared & w1' & Hstep' & Hsel & Hcnt & _ & _ & Hrq & Hw1 & Hnt & _).
  rewrite Hstep in Hstep'. injection Hstep' as <-.
  exists cleared. repeat (split; [done|]).
  intros data error.
  assert (Hk1 : pending w1 !! nextTask w = Some KGames).
  { rewrite Hw1. cbn. rewrite Hnt. apply lookup_insert_eq. }
  destruct (fetchGamesInRegion_done_spec w1 _ data error Hk1)
    as (w2 & Hstep2 & _ & _ & _ & Hsel2 & Hcnt2 & _).
  exists w2. split; [done|]. rewrite Hsel2, Hcnt2, Hw1. cbn. done.
Qed.

Lemma selection_cleared_before_query_witness :
  selected (component (after 0 countedThenPanned)) = Some gameA /\
  playerCount (component (after 0 countedThenPanned)) = Some 7%Z /\
  exists w1 w2,
    step (after 0 countedThenPanned)
         (Settle 5 (RSession (Some (mkSession "token")))) = Some w1 /\
    selected (component w1) = None /\
    playerCount (component w1) = None /\
    step w1 (Settle 6 (RGames (Some [gameB]) None)) = Some w2 /\
    selected (component w2) = None /\
    playerCount (component w2) = None.
Proof.
  split; [vm_compute; reflexivity|]. split; [vm_compute; reflexivity|].
  pose (w1 := after 0 (countedThenPanned
                       ++ [Settle 5 (RSession (Some (mkSession "token")))])).
  destruct (selection_cleared_before_query
              (after 0 countedThenPanned) w1
              (Settle 5 (RSession (Some (mkSession "token"))))
              (sessionListQuery
                 (regionToBounds (mkRegion 41 (-74) 0.06 0.06)) 450))
    as (cleared & Hsel & Hcnt & _ & Hw1 & Hdone).
  - vm_compute. reflexivity.
  - vm_compute. apply list_elem_of_here.
  - destruct (Hdone (Some [gameB]) None) as (w2 & Hstep2 & Hsel2 & Hcnt2).
    exists w1, w2. split; [vm_compute; reflexivity|].
    split; [rewrite Hw1; exact Hsel|]. split; [rewrite Hw1; exact Hcnt|].
    split; [exact Hstep2|]. split; [exact Hsel2 | exact Hcnt2].
Defined.

(** *** Failures *)

(** C5. A failed session-list query leaves the visible list as it was and
    raises the alert that carries the error's message. A failed count query
    leaves the player count null and the count-loading flag cleared, and
    raises no alert. *)
Theorem failed_queries_keep_state :
  (forall (w : World) (task : nat) (data : option (list Game))
          (e : PostgrestError),
      pending w !! task = Some KGames ->
      exists w',
        step w (Settle task (RGames data (Some e))) = Some w' /\
        games (component w') = games (component w) /\
        alerts w' = alerts w ++ [("Error", message e)]) /\
  (forall (w : World) (task : nat) (g : Game) (count : option Z)
          (e : PostgrestError),
      pending w !! task = Some (KCount g) ->
      exists w',
        step w (Settle task (RCount count (Some e))) = Some w' /\
        playerCount (component w') = None /\
        loadingCount (component w') = false /\
        alerts w' = alerts w).
Proof.
  split.
  - intros w task data e Hk.
    destruct (fetchGamesInRegion_done_spec w task data (Some e) Hk)
      as (w' & Hstep & Hg & Ha & _).
    exists w'. done.
  - intros w task g count e Hk.
    destruct (onSelectGame_done_spec w task g count (Some e) Hk)
      as (w' & Hstep & Hc & Hl & _ & _ & Ha & _).
    exists w'. done.
Qed.

Lemma failed_queries_keep_state_witness :
  (exists w',
      step (after 0 panned)
           (Settle 5 (RGames None (Some (mkError "offline")))) = Some w' /\
      games (component w') = [gameA; gameB] /\
      alerts w' = [("Error", "offline")]) /\
  (exists w',
      step (after 0 tapped) (Settle 4 (RCount None (Some (mkError "offline"))))
        = Some w' /\
      playerCount (component w') = None /\
      loadingCount (component w') = false /\
      alerts w' = []).
Proof.
  split.
  - destruct (proj1 failed_queries_keep_state
                (after 0 panned) 5 None (mkError "offline"))
      as (w' & Hstep & Hg & Ha); [vm_compute; reflexivity|].
    exists w'. split; [exact Hstep|].
    split; [rewrite Hg | rewrite Ha]; vm_compute; reflexivity.
  - destruct (proj2 failed_queries_keep_state
                (after 0 tapped) 4 gameA None (mkError "offline"))
      as (w' & Hstep & Hc & Hl & Ha); [vm_compute; reflexivity|].
    exists w'. split; [exact Hstep|]. split; [exact Hc|].
    split; [exact Hl|]. rewrite Ha. vm_compute. reflexivity.
Defined.

(** *** The authentication gate *)

(** A fetch begins with the authentication check and nothing else. *)
Lemma fetchGamesInRegion_spec (r : Region) (w : World) :
  requests (exec (fetchGamesInRegion r) w) = requests w ++ [ReqGetSession] /\
  pending (exec (fetchGamesInRegion r) w)
    = <[nextTask w := KAuth r]> (pending w) /\
  component (exec (fetchGamesInRegion r) w) = component w.
Proof. done. Qed.

(** C6. A fetch of the session list first asks the remote store for the
    active session and sends nothing else; a session-list query is only
    ever sent by the step in which that check settles with a session. When
    it settles without one, no request is sent, nothing of the fetch stays
    suspended, and the user gets the [Not logged in] alert, which is not
    the alert of a query error. *)
Theorem auth_gate_blocks_query :
  (forall (r : Region) (w : World),
      sent w (exec (fetchGamesInRegion r) w) = [ReqGetSession] /\
      pending (exec (fetchGamesInRegion r) w) !! nextTask w = Some (KAuth r)) /\
  (forall (w w' : World) (e : Event) (q : Query),
      step w e = Some w' -> ReqGames q ∈ sent w w' ->
      exists task r s,
        e = Settle task (RSession (Some s)) /\
        pending w !! task = Some (KAuth r)) /\
  (forall (w : World) (task : nat) (r : Region),
      pending w !! task = Some (KAuth r) ->
      exists w',
        step w (Settle task (RSession None)) = Some w' /\
        sent w w' = [] /\
        pending w' = delete task (pending w) /\
        alerts w' = alerts w ++ [notLoggedInAlert] /\
        forall e : PostgrestError, notLoggedInAlert ≠ queryErrorAlert e).
Proof.
  split; [|split].
  - intros r w. destruct (fetchGamesInRegion_spec r w) as (Hr & Hp & _).
    split; [by apply sent_app|]. rewrite Hp. apply lookup_insert_eq.
  - intros w w' e q Hstep Hq.
    destruct (step_sent w w' e Hstep) as (new & Hreq & Hnew).
    rewrite (sent_app _ _ _ Hreq) in Hq.
    destruct Hnew as [Hno | (task & r & s & -> & Hk & ->)]; [|by eauto].
    by apply Hno in Hq.
  - intros w task r Hk.
    destruct (auth_refused_spec w task r Hk)
      as (w' & Hstep & _ & Hr & Ha & Hp & _).
    exists w'. split; [done|]. split.
    { apply sent_app. by rewrite app_nil_r. }
    repeat (split; [done|]). intros e. discriminate.
Qed.

Lemma auth_gate_blocks_query_witness :
  (exists task r s,
      Settle 2 (RSession (Some (mkSession "token")))
        = Settle task (RSession (Some s)) /\
      pending (after 0 located) !! task = Some (KAuth r)) /\
  (exists w',
      step (after 0 located) (Settle 2 (RSession None)) = Some w' /\
      requests w' = [ReqPermission; ReqPosition; ReqGetSession] /\
      alerts w' = [notLoggedInAlert]).
Proof.
  split.
  - apply (proj1 (proj2 auth_gate_blocks_query)
                 (after 0 located) (after 0 authed) _
                 (sessionListQuery
                    (regionToBounds (mkRegion 40 (-74) 0.06 0.06)) 0)).
    + vm_compute. reflexivity.
    + vm_compute. apply list_elem_of_here.
  - destruct (proj2 (proj2 auth_gate_blocks_query)
                    (after 0 located) 2 (mkRegion 40 (-74) 0.06 0.06))
      as (w' & Hstep & _ & _ & Ha & _); [vm_compute; reflexivity|].
    exists w'. split; [exact Hstep|].
    split; [|rewrite Ha; vm_compute; reflexivity].
    vm_compute in Hstep. injection Hstep as <-. reflexivity.
Defined.

(** C9. When the authentication check fails, [fetchGamesInRegion] returns
    with the component untouched. Neither of its two pieces writes to the
    state: the call, up to the check, leaves the component as it is, and
    so does the resumption with no session: the visible list, the
    selection, the player count and the loading-games flag are what they
    were, as is every other cell of the state. *)
Theorem auth_failure_mutates_nothing :
  (forall (r : Region) (w : World),
      component (exec (fetchGamesInRegion r) w) = component w) /\
  (forall (w : World) (task : nat) (r : Region),
      pending w !! task = Some (KAuth r) ->
      exists w',
        step w (Settle task (RSession None)) = Some w' /\
        games (component w') = games (component w) /\
        selected (component w') = selected (component w) /\
        playerCount (component w') = playerCount (component w) /\
        loadingGames (component w') = loadingGames (component w) /\
        component w' = component w).
Proof.
  split; [intros r w; apply fetchGamesInRegion_spec|].
  intros w task r Hk.
  destruct (auth_refused_spec w task r Hk) as (w' & Hstep & Hc & _).
  exists w'. rewrite Hc. done.
Qed.

Lemma auth_failure_mutates_nothing_witness :
  exists w',
    step (after 0 (tapped ++ [Elapse 10;
                              RegionChangeComplete (mkRegion 41 (-74) 0.06 0.06);
                              Elapse 450]))
         (Settle 5 (RSession None)) = Some w' /\
    games (component w') = [gameA; gameB] /\
    selected (component w') = Some gameA.
Proof.
  destruct (proj2 auth_failure_mutates_nothing
              (after 0 (tapped ++ [Elapse 10;
                                   RegionChangeComplete
                                     (mkRegion 41 (-74) 0.06 0.06);
                                   Elapse 450]))
              5 (mkRegion 41 (-74) 0.06 0.06))
    as (w' & Hstep & Hg & Hs & _); [vm_compute; reflexivity|].
  exists w'. split; [exact Hstep|].
  split; [rewrite Hg | rewrite Hs]; vm_compute; reflexivity.
Defined.

(** *** The player count *)

(** C10. When the count fetch settles, the count-loading flag is cleared,
    on success and on failure. On success the stored player count is a
    number, never null: the count of the response, or 0 when the response
    carries a null count. *)
Theorem count_success_non_null :
  forall (w : World) (task : nat) (g : Game) (count : option Z)
         (error : option PostgrestError),
    pending w !! task = Some (KCount g) ->
    exists w',
      step w (Settle task (RCount count error)) = Some w' /\
      loadingCount (component w') = false /\
      (error = None ->
       (exists n : Z, playerCount (component w') = Some n) /\
       (count = None -> playerCount (component w') = Some 0%Z) /\
       (forall n : Z, count = Some n -> playerCount (component w') = Some n)).
Proof.
  intros w task g count error Hk.
  destruct (onSelectGame_done_spec w task g count error Hk)
    as (w' & Hstep & Hc & Hl & _).
  exists w'. split; [done|]. split; [done|].
  intros ->. rewrite Hc. cbn. split; [eauto|].
  split; [intros ->; done | intros n ->; done].
Qed.

Lemma count_success_non_null_witness :
  exists w',
    step (after 0 tapped) (Settle 4 (RCount None None)) = Some w' /\
    loadingCount (component w') = false /\
    playerCount (component w') = Some 0%Z.
Proof.
  destruct (count_success_non_null (after 0 tapped) 4 gameA None None)
    as (w' & Hstep & Hl & Hc); [vm_compute; reflexivity|].
  exists w'. split; [exact Hstep|]. split; [exact Hl|].
  exact (proj1 (proj2 (Hc eq_refl)) eq_refl).
Defined.

(** *** Overlapping selections *)

Lemma run_app (w : World) (es1 es2 : list Event) :
  run w (es1 ++ es2) = w' ← run w es1; run w' es2.
Proof.
  revert w. induction es1 as [|e es1 IH]; intros w; cbn; [done|].
  destruct (step w e); cbn; [apply IH | done].
Qed.

Lemma run_step (w w' : World) (e : Event) (es : list Event) :
  step w e = Some w' -> run w (e :: es) = run w' es.
Proof. intros H. cbn [run]. rewrite H. done. Qed.

(** A marker is pressed. *)
Lemma onSelectGame_spec (w : World) (i : nat) (g : Game) :
  mapShown (component w) = true ->
  games (component w) !! i = Some g ->
  exists w',
    step w (MarkerPress i) = Some w' /\
    selected (component w') = Some g /\
    playerCount (component w') = None /\
    loadingCount (component w') = true /\
    games (component w') = games (component w) /\
    mapShown (component w') = true /\
    requests w' = requests w ++ [ReqCount (countQuery g)] /\
    pending w' = <[nextTask w := KCount g]> (pending w) /\
    nextTask w' = S (nextTask w).
Proof.
  intros Hshown Hg. eexists. split.
  - cbn. rewrite Hshown, Hg. reflexivity.
  - destruct w as [[] ? ? ? ? ? ? ? ?]. cbn in *. auto 10.
Qed.

(** Both markers pressed: the card is on [b], loading, with both count
    fetches suspended. *)
Lemma selectTwice_spec (w : World) (i j : nat) (a b : Game) :
  mapShown (component w) = true ->
  games (component w) !! i = Some a ->
  games (component w) !! j = Some b ->
  exists w2,
    run w (selectTwice i j) = Some w2 /\
    selected (component w2) = Some b /\
    playerCount (component w2) = None /\
    loadingCount (component w2) = true /\
    sent w w2 = [ReqCount (countQuery a); ReqCount (countQuery b)] /\
    pending w2 !! nextTask w = Some (KCount a) /\
    pending w2 !! S (nextTask w) = Some (KCount b).
Proof.
  intros Hshown Ha Hb.
  destruct (onSelectGame_spec w i a Hshown Ha)
    as (w1 & Hs1 & _ & _ & _ & Hg1 & Hshown1 & Hr1 & Hp1 & Hn1).
  rewrite <- Hg1 in Hb.
  destruct (onSelectGame_spec w1 j b Hshown1 Hb)
    as (w2 & Hs2 & Hsel & Hcnt & Hld & _ & _ & Hr2 & Hp2 & _).
  exists w2. split.
  { unfold selectTwice. rewrite (run_step _ _ _ _ Hs1), (run_step _ _ _ _ Hs2).
    done. }
  repeat (split; [done|]). split; [|split].
  - apply sent_app. rewrite Hr2, Hr1, <- app_assoc. done.
  - rewrite Hp2, Hp1, Hn1, lookup_insert_ne by lia. apply lookup_insert_eq.
  - rewrite Hp2, Hn1. apply lookup_insert_eq.
Qed.

(** Two suspended count fetches settle one after the other: the second
    response is the one that stays. *)
Lemma counts_settle_spec (w : World) (t1 t2 : nat) (g1 g2 : Game)
    (c1 c2 : option Z) (e1 e2 : option PostgrestError) :
  t1 ≠ t2 ->
  pending w !! t1 = Some (KCount g1) ->
  pending w !! t2 = Some (KCount g2) ->
  exists w1 w2,
    step w (Settle t1 (RCount c1 e1)) = Some w1 /\
    step w1 (Settle t2 (RCount c2 e2)) = Some w2 /\
    selected (component w1) = selected (component w) /\
    playerCount (component w1) = countShown c1 e1 /\
    loadingCount (component w1) = false /\
    selected (component w2) = selected (component w) /\
    playerCount (component w2) = countShown c2 e2 /\
    loadingCount (component w2) = false.
Proof.
  intros Hne Hk1 Hk2.
  destruct (onSelectGame_done_spec w t1 g1 c1 e1 Hk1)
    as (w1 & Hs1 & Hc1 & Hl1 & Hsel1 & _ & _ & _ & Hp1 & _).
  assert (Hk2' : pending w1 !! t2 = Some (KCount g2)).
  { rewrite Hp1, lookup_delete_ne by done. exact Hk2. }
  destruct (onSelectGame_done_spec w1 t2 g2 c2 e2 Hk2')
    as (w2 & Hs2 & Hc2 & Hl2 & Hsel2 & _).
  exists w1, w2. rewrite Hsel2, Hsel1. done.
Qed.

(** C3, as the code has it. After [a] then [b] are selected the card is on
    [b], loading, with a null count. The code keeps no guard on the
    identity of the session: each count result that settles clears the
    loading flag and overwrites the count, so the count that stays is the
    one of the fetch that settles last, that of [b] when the count of [a]
    settles first and that of [a] when the count of [b] settles first. *)
Theorem overlapping_selections_last_response_wins :
  forall (w : World) (i j : nat) (a b : Game)
         (ca cb : option Z) (ea eb : option PostgrestError),
    mapShown (component w) = true ->
    games (component w) !! i = Some a ->
    games (component w) !! j = Some b ->
    exists w2,
      run w (selectTwice i j) = Some w2 /\
      sent w w2 = [ReqCount (countQuery a); ReqCount (countQuery b)] /\
      selected (component w2) = Some b /\
      playerCount (component w2) = None /\
      loadingCount (component w2) = true /\
      (exists w3 w4,
          step w2 (Settle (nextTask w) (RCount ca ea)) = Some w3 /\
          run w2 (settleInOrder w (RCount ca ea) (RCount cb eb)) = Some w4 /\
          selected (component w3) = Some b /\
          playerCount (component w3) = countShown ca ea /\
          loadingCount (component w3) = false /\
          selected (component w4) = Some b /\
          playerCount (component w4) = countShown cb eb /\
          loadingCount (component w4) = false) /\
      (exists w4,
          run w2 (settleOutOfOrder w (RCount ca ea) (RCount cb eb)) = Some w4 /\
          selected (component w4) = Some b /\
          playerCount (component w4) = countShown ca ea /\
          loadingCount (component w4) = false).
Proof.
  intros w i j a b ca cb ea eb Hshown Ha Hb.
  destruct (selectTwice_spec w i j a b Hshown Ha Hb)
    as (w2 & Hrun & Hsel & Hcnt & Hld & Hsent & Hka & Hkb).
  exists w2. repeat (split; [done|]). split.
  - destruct (counts_settle_spec w2 _ _ a b ca cb ea eb
                (n_Sn (nextTask w)) Hka Hkb)
      as (w3 & w4 & Hs3 & Hs4 & Hsel3 & Hc3 & Hl3 & Hsel4 & Hc4 & Hl4).
    exists w3, w4. split; [done|].
    split.
    { unfold settleInOrder.
      rewrite (run_step _ _ _ _ Hs3), (run_step _ _ _ _ Hs4). done. }
    rewrite Hsel3, Hsel4. done.
  - destruct (counts_settle_spec w2 _ _ b a cb ca eb ea
                (not_eq_sym (n_Sn (nextTask w))) Hkb Hka)
      as (w3 & w4 & Hs3 & Hs4 & _ & _ & _ & Hsel4 & Hc4 & Hl4).
    exists w4. split.
    { unfold settleOutOfOrder.
      rewrite (run_step _ _ _ _ Hs3), (run_step _ _ _ _ Hs4). done. }
    rewrite Hsel4. done.
Qed.

Lemma overlapping_selections_last_response_wins_witness :
  exists w4,
    run (after 0 listed)
        (selectTwice 0 1 ++
         settleOutOfOrder (after 0 listed)
           (RCount (Some 3%Z) None) (RCount (Some 5%Z) None)) = Some w4 /\
    selected (component w4) = Some gameB /\
    playerCount (component w4) = Some 3%Z /\
    loadingCount (component w4) = false.
Proof.
  destruct (overlapping_selections_last_response_wins
              (after 0 listed) 0 1 gameA gameB
              (Some 3%Z) (Some 5%Z) None None)
    as (w2 & Hrun & _ & _ & _ & _ & _ & (w4 & Hrun4 & Hsel & Hc & Hl));
    [vm_compute; reflexivity ..|].
  exists w4. rewrite run_app, Hrun. cbn [mbind option_bind].
  split; [exact Hrun4|]. split; [exact Hsel|]. split; [exact Hc | exact Hl].
Defined.

(** C3, as the design states it, fails: with [gameA] selected, then
    [gameB], the count 5 of [gameB] settling first and the count 3 of
    [gameA] after it, the card ends on [gameB] with the count 3 and the
    loading flag cleared. *)
Lemma stale_count_attached_to_other_session :
  ~ stale_count_discarded.
Proof.
  intros Hclaim.
  pose (es := settleOutOfOrder (after 0 listed)
                (RCount (Some 3%Z) None) (RCount (Some 5%Z) None)).
  pose (w4 := default (boot 0) (run (after 0 listed) (selectTwice 0 1 ++ es))).
  assert (Hrun : run (after 0 listed) (selectTwice 0 1 ++ es) = Some w4)
    by (vm_compute; reflexivity).
  assert (Hc : playerCount (component w4) = Some 3%Z)
    by (vm_compute; reflexivity).
  assert (Hl : loadingCount (component w4) = false)
    by (vm_compute; reflexivity).
  destruct (Hclaim (after 0 listed) w4 0 1 gameA gameB 3%Z 5%Z es
                   eq_refl eq_refl eq_refl (or_intror eq_refl) Hrun)
    as (_ & [Hc' | Hl']); congruence.
Qed.

(** *** Startup *)

Lemma run_invariant (P : World -> Prop) :
  (forall w e w', P w -> step w e = Some w' -> P w') ->
  forall es w w', P w -> run w es = Some w' -> P w'.
Proof.
  intros Hstep es. induction es as [|e es IH]; intros w w' HP; cbn [run].
  - by intros [= <-].
  - destruct (step w e) as [w1|] eqn:Hs; cbn; [|done].
    apply IH. by eapply Hstep.
Qed.

(** In a halted world time may pass, and nothing else happens. *)
Lemma halted_step (w w' : World) (e : Event) :
  halted w -> step w e = Some w' ->
  halted w' /\ requests w' = requests w /\ component w' = component w
  /\ alerts w' = alerts w.
Proof.
  intros (Hp & Ht & Hm).
  destruct e as [dt|task resp|r|i| |]; cbn -[elapse].
  - case_bool_decide; [|done]. intros [= <-].
    change ((elapse dt w).2) with (exec (elapse dt) w).
    rewrite exec_elapse, Ht. cbn. unfold halted. cbn. done.
  - unfold settle. rewrite Hp, lookup_empty. done.
  - rewrite Hm. done.
  - rewrite Hm. done.
  - unfold cardShown. rewrite Hm. done.
  - unfold cardShown. rewrite Hm. done.
Qed.

Lemma halted_run (es : list Event) (w w' : World) :
  halted w -> run w es = Some w' ->
  halted w' /\ requests w' = requests w /\ component w' = component w
  /\ alerts w' = alerts w.
Proof.
  intros Hh Hrun.
  apply (run_invariant
           (fun v => halted v /\ requests v = requests w
                     /\ component v = component w /\ alerts v = alerts w))
    with (es := es) (w := w); [|done|done].
  intros v e v' (Hv & Hr & Hc & Ha) Hs.
  destruct (halted_step v v' e Hv Hs) as (? & -> & -> & ->). done.
Qed.

(** Permission granted and the position found: the world is this one. *)
Lemma mount_granted_spec (t0 : Z) (lat lng : float) :
  run (startup t0)
      [Settle 0 (RPermission granted); Settle 1 (RPosition lat lng)]
  = Some (mkWorld
            (mkState false (Some (mkRegion lat lng 0.06 0.06)) false []
                     None None false None)
            t0 [] 1 {[ 2%nat := KAuth (mkRegion lat lng 0.06 0.06) ]} 3 [] []
            [ReqPermission; ReqPosition; ReqGetSession]).
Proof. vm_compute. reflexivity. Qed.

(** C8, as the code has it. When the location permission is not granted,
    the effect clears the location-loading flag, raises the
    [Location needed] alert and ends: the viewport stays null, nothing is
    suspended or armed, and whatever happens afterwards the only request
    ever sent is the one permission request, so no query and no retry.
    When the permission is granted and the position found, the initial
    viewport has the position as centre and spans of 0.06, and the fetch
    for it starts in that very step, with no timer armed and no time gone
    by: its authentication check is out, and when that check finds a
    session the query for the bounds of the initial viewport follows, still
    with no time gone by; without a session no query is sent. *)
Theorem startup_permission_and_first_fetch :
  (forall (t0 : Z) (status : PermissionStatus),
      status ≠ granted ->
      exists w1,
        step (startup t0) (Settle 0 (RPermission status)) = Some w1 /\
        loadingLocation (component w1) = false /\
        region (component w1) = None /\
        alerts w1 = [locationNeededAlert] /\
        halted w1 /\
        forall (es : list Event) (w' : World),
          run w1 es = Some w' ->
          requests w' = [ReqPermission] /\
          component w' = component w1 /\
          alerts w' = alerts w1 /\
          halted w') /\
  (forall (t0 : Z) (lat lng : float),
      let initial := mkRegion lat lng 0.06 0.06 in
      exists w2,
        run (startup t0)
            [Settle 0 (RPermission granted); Settle 1 (RPosition lat lng)]
          = Some w2 /\
        region (component w2) = Some initial /\
        loadingLocation (component w2) = false /\
        requests w2 = [ReqPermission; ReqPosition; ReqGetSession] /\
        pending w2 = {[ 2%nat := KAuth initial ]} /\
        timers w2 = [] /\
        fetchTimer (component w2) = None /\
        now w2 = t0 /\
        forall session : option Session,
        exists w3,
          step w2 (Settle 2 (RSession session)) = Some w3 /\
          now w3 = t0 /\
          timers w3 = [] /\
          sent w2 w3 =
            match session with
            | Some _ =>
                [ReqGames (sessionListQuery (regionToBounds initial) t0)]
            | None => []
            end).
Proof.
  split.
  - intros t0 status Hst.
    assert (Hs : step (startup t0) (Settle 0 (RPermission status))
                 = Some (exec (mount_permission status)
                              (forget 0 (startup t0)))).
    { apply settle_resume with (k := KPermission); reflexivity. }
    eexists. split; [exact Hs|].
    assert (Hh : halted (exec (mount_permission status)
                              (forget 0 (startup t0)))).
    { destruct status; [done| |]; repeat split. }
    destruct status; [done| |];
      (repeat (split; [done|]); intros es w' Hrun;
       destruct (halted_run es _ w' Hh Hrun) as (? & -> & -> & ->); done).
  - intros t0 lat lng initial. eexists. split; [apply mount_granted_spec|].
    cbn [component region loadingLocation requests pending timers fetchTimer
         now].
    repeat (split; [reflexivity|]).
    match goal with |- forall _, exists _, step ?w _ = _ /\ _ =>
      assert (Hk : pending w !! 2%nat = Some (KAuth initial))
        by apply lookup_singleton_eq
    end.
    intros [s|].
    + destruct (auth_granted_spec _ _ _ s Hk)
        as (cleared & w3 & Hs3 & _ & _ & _ & _ & Hrq & -> & _ & _ & _ & Ht
            & Hnow).
      eexists. split; [exact Hs3|]. cbn [now timers exec await snd].
      split; [exact Hnow|]. split; [exact Ht|].
      apply sent_app. cbn. by rewrite Hrq.
    + destruct (auth_refused_spec _ _ _ Hk)
        as (w3 & Hs3 & _ & Hrq & _ & _ & Ht & _).
      exists w3. split; [exact Hs3|].
      assert (Hnow : now w3 = t0).
      { cbn in Hs3. injection Hs3 as <-. reflexivity. }
      split; [exact Hnow|]. split; [exact Ht|].
      apply sent_app. by rewrite app_nil_r.
Qed.

Lemma startup_permission_and_first_fetch_witness :
  exists w1,
    step (startup 0) (Settle 0 (RPermission denied)) = Some w1 /\
    forall w',
      run w1 [Elapse 1000; Elapse 450] = Some w' ->
      requests w' = [ReqPermission].
Proof.
  destruct (proj1 startup_permission_and_first_fetch 0%Z denied)
    as (w1 & Hstep & _ & _ & _ & _ & Hever); [discriminate|].
  exists w1. split; [exact Hstep|].
  intros w' Hrun. exact (proj1 (Hever _ w' Hrun)).
Defined.

(** C8, as the design states it, fails: with no session at the remote
    store, the first fetch stops at its authentication check; the requests
    sent are the ones for the permission, the position and the session,
    and no query. *)
Lemma first_fetch_without_session_sends_no_query :
  ~ first_fetch_always_queries.
Proof.
  intros Hclaim.
  pose (es := [Settle 0 (RPermission granted); Settle 1 (RPosition 40 (-74));
               Settle 2 (RSession None)]).
  pose (w3 := default (boot 0) (run (startup 0) es)).
  assert (Hrun : run (startup 0) es = Some w3) by (vm_compute; reflexivity).
  assert (Hnone : queriesSent (startup 0) w3 = [])
    by (vm_compute; reflexivity).
  specialize (Hclaim 0%Z 40%float (-74)%float None w3 Hrun).
  rewrite Hnone in Hclaim. discriminate.
Qed.

(** *** The debounce timer *)

Lemma timers_ok_startup (t0 : Z) : timers_ok (startup t0).
Proof.
  split; [reflexivity|]. split; [compute; lia|].
  intros t Ht. by apply elem_of_nil in Ht.
Qed.

(** With the ref in step with the armed timer, [scheduleFetch] finds
    nothing left to disarm but that timer. *)
Lemma disarmed_nil (w : World) : timers_ok w -> disarmed w = [].
Proof.
  intros (_ & Hlen & Hin). unfold disarmed.
  destruct (timers w) as [|t [|t' l]] eqn:Ht; cbn in Hlen; [| |lia].
  - destruct (fetchTimer (component w)); [case_bool_decide|]; done.
  - destruct (Hin t) as (-> & Hpos & _); [apply list_elem_of_here|].
    rewrite bool_decide_true by lia.
    cbn. rewrite decide_False; [done|]. intros H. by apply H.
Qed.

(** Resuming a suspended function leaves the timers and the ref alone. *)
Lemma resume_timers (k : Cont) (resp : Response) (m : M unit) (w : World) :
  resume k resp = Some m ->
  timers (exec m w) = timers w /\
  nextTimer (exec m w) = nextTimer w /\
  fetchTimer (component (exec m w)) = fetchTimer (component w).
Proof.
  destruct k, resp; cbn; try done; intros [= <-];
    repeat match goal with
           | x : option _ |- _ => destruct x
           | x : PermissionStatus |- _ => destruct x
           end; done.
Qed.

Lemma timers_ok_step (w w' : World) (e : Event) :
  timers_ok w -> step w e = Some w' -> timers_ok w'.
Proof.
  intros Hok. pose proof Hok as (Hpos & Hlen & Hin).
  destruct e as [dt|task resp|r|i| |]; cbn -[elapse].
  - case_bool_decide; [|done]. intros [= <-].
    change ((elapse dt w).2) with (exec (elapse dt) w).
    rewrite exec_elapse.
    match goal with |- timers_ok (exec (fire ?d) ?v) =>
      destruct (fire_spec d v) as (_ & Hc & Ht & Hn & _) end.
    unfold timers_ok. rewrite Hc, Ht, Hn. cbn. split; [done|]. split.
    + etrans; [apply length_filter|done].
    + intros t Ht'. apply list_elem_of_filter in Ht' as [_ Ht']. auto.
  - unfold settle. destruct (pending w !! task) as [k|]; [|done]. cbn.
    destruct (resume k resp) as [m|] eqn:Hm; [|done]. cbn. intros [= <-].
    change ((m (forget task w)).2) with (exec m (forget task w)).
    destruct (resume_timers k resp m (forget task w) Hm) as (Ht & Hn & Hf).
    unfold timers_ok. rewrite Ht, Hn, Hf. done.
  - destruct (mapShown (component w)); [|done]. intros [= <-].
    unfold onRegionChangeComplete.
    change ((?m w).2) with (exec m w).
    rewrite exec_bind, scheduleFetch_spec, disarmed_nil.
    + unfold timers_ok. cbn. split; [lia|]. split; [done|].
      intros t Ht. apply list_elem_of_singleton in Ht as ->. cbn.
      split; [done | lia].
    + done.
  - destruct (mapShown (component w)); [|done].
    destruct (games (component w) !! i) as [g|]; [|done]. cbn.
    intros [= <-]. done.
  - destruct (cardShown (component w)); [|done]. intros [= <-]. done.
  - destruct (cardShown (component w)); [|done]. intros [= <-]. done.
Qed.

Lemma reachable_timers_ok (w : World) : reachable w -> timers_ok w.
Proof.
  intros (t0 & es & Hrun).
  eapply (run_invariant timers_ok); [|apply (timers_ok_startup t0)|exact Hrun].
  intros v e v' Hv Hs. by eapply timers_ok_step.
Qed.

(** A viewport change arms the one timer, due 450 ms from now, and sends
    nothing. *)
Lemma onRegionChangeComplete_spec (w : World) (r : Region) :
  timers_ok w -> mapShown (component w) = true ->
  exists w',
    step w (RegionChangeComplete r) = Some w' /\
    timers w' = [mkTimer (nextTimer w) (now w + 450) r] /\
    now w' = now w /\
    requests w' = requests w /\
    pending w' = pending w /\
    nextTask w' = nextTask w /\
    mapShown (component w') = true.
Proof.
  intros Hok Hshown. eexists. split.
  - cbn. rewrite Hshown. reflexivity.
  - unfold onRegionChangeComplete.
    change ((?m w).2) with (exec m w).
    rewrite exec_bind, scheduleFetch_spec, disarmed_nil.
    + cbn. repeat (split; [done|]).
      unfold mapShown in *. cbn in *.
      destruct (loadingLocation (component w)); done.
    + done.
Qed.

(** Before its deadline the armed timer stays armed. *)
Lemma elapse_short_spec (w : World) (id gap : Z) (r : Region) :
  timers w = [mkTimer id (now w + 450) r] ->
  (0 ≤ gap < 450)%Z ->
  exists w',
    step w (Elapse gap) = Some w' /\
    timers w' = timers w /\
    component w' = component w /\
    nextTimer w' = nextTimer w /\
    requests w' = requests w /\
    pending w' = pending w /\
    nextTask w' = nextTask w.
Proof.
  intros Ht Hgap. eexists. split.
  - cbn -[elapse]. rewrite bool_decide_true by lia. reflexivity.
  - rewrite exec_elapse, Ht. cbn.
    rewrite decide_False by lia. rewrite decide_True by lia. cbn. done.
Qed.

(** From its deadline on it fires: the fetch for its region starts. *)
Lemma elapse_fire_spec (w : World) (id d : Z) (r : Region) :
  timers w = [mkTimer id (now w + 450) r] ->
  (450 ≤ d)%Z ->
  exists w',
    step w (Elapse d) = Some w' /\
    timers w' = [] /\
    now w' = (now w + d)%Z /\
    requests w' = requests w ++ [ReqGetSession] /\
    pending w' = <[nextTask w := KAuth r]> (pending w).
Proof.
  intros Ht Hd. eexists. split.
  - cbn -[elapse]. rewrite bool_decide_true by lia. reflexivity.
  - rewrite exec_elapse, Ht. cbn.
    rewrite decide_True by lia. rewrite decide_False by lia. cbn. done.
Qed.

(** A burst of viewport changes leaves one timer armed, for the last
    viewport, and has sent nothing. *)
Lemma burst_spec (rest : list (Z * Region)) :
  forall (r0 : Region) (w : World),
    timers_ok w -> mapShown (component w) = true ->
    withinDebounce rest ->
    exists w' id,
      run w (burst r0 rest) = Some w' /\
      timers w' = [mkTimer id (now w' + 450) (lastRegion r0 rest)] /\
      requests w' = requests w /\
      pending w' = pending w /\
      nextTask w' = nextTask w.
Proof.
  induction rest as [|[gap r] rest IH]; intros r0 w Hok Hshown Hgaps.
  - destruct (onRegionChangeComplete_spec w r0 Hok Hshown)
      as (w1 & Hs & Ht & Hnow & Hr & Hp & Hn & _).
    exists w1, (nextTimer w). cbn [burst lastRegion].
    rewrite (run_step _ _ _ _ Hs), Hnow. done.
  - destruct (onRegionChangeComplete_spec w r0 Hok Hshown)
      as (w1 & Hs1 & Ht1 & Hnow1 & Hr1 & Hp1 & Hn1 & Hshown1).
    pose proof (timers_ok_step _ _ _ Hok Hs1) as Hok1.
    apply Forall_cons in Hgaps as [Hgap Hgaps]. cbn in Hgap.
    rewrite <- Hnow1 in Ht1.
    destruct (elapse_short_spec w1 _ gap r0 Ht1 Hgap)
      as (w2 & Hs2 & Ht2 & Hc2 & Hnt2 & Hr2 & Hp2 & Hn2).
    pose proof (timers_ok_step _ _ _ Hok1 Hs2) as Hok2.
    rewrite <- Hc2 in Hshown1.
    destruct (IH r w2 Hok2 Hshown1 Hgaps)
      as (w3 & id & Hrun & Ht3 & Hr3 & Hp3 & Hn3).
    exists w3, id. cbn [burst lastRegion].
    rewrite (run_step _ _ _ _ Hs1), (run_step _ _ _ _ Hs2).
    split; [done|]. split; [done|].
    rewrite Hr3, Hr2, Hr1, Hp3, Hp2, Hp1, Hn3, Hn2, Hn1. done.
Qed.

(** C1, as the code has it. At most one debounce timer is armed in any
    world the screen can reach, and [scheduleFetch] leaves armed the timer
    it has just set and no other. A burst of viewport changes, each less
    than 450 ms after the one before it, sends nothing, and nothing is sent
    for as long as less than 450 ms have gone by since the last change;
    once 450 ms have gone by the one armed timer fires and starts exactly
    one fetch of the session list, for the last viewport. When the
    authentication check of that fetch finds a session, the fetch sends
    exactly one query, built from the bounds of the last viewport; when it
    finds none, no query is sent. *)
Theorem debounce_starts_one_fetch :
  (forall w : World, reachable w -> length (timers w) <= 1) /\
  (forall (w : World) (r : Region),
      reachable w ->
      timers (exec (scheduleFetch r) w)
        = [mkTimer (nextTimer w) (now w + 450) r]) /\
  (forall (w0 : World) (r0 : Region) (rest : list (Z * Region)) (d : Z),
      reachable w0 -> mapShown (component w0) = true ->
      withinDebounce rest -> (450 ≤ d)%Z ->
      exists w1 w2,
        run w0 (burst r0 rest) = Some w1 /\
        sent w0 w1 = [] /\
        (forall d' : Z,
            (0 ≤ d' < 450)%Z ->
            exists w', step w1 (Elapse d') = Some w' /\ sent w0 w' = []) /\
        step w1 (Elapse d) = Some w2 /\
        sent w0 w2 = [ReqGetSession] /\
        timers w2 = [] /\
        pending w2 = <[nextTask w0 := KAuth (lastRegion r0 rest)]> (pending w0) /\
        forall session : option Session,
        exists w3,
          step w2 (Settle (nextTask w0) (RSession session)) = Some w3 /\
          sent w2 w3 =
            match session with
            | Some _ =>
                [ReqGames (sessionListQuery
                             (regionToBounds (lastRegion r0 rest)) (now w2))]
            | None => []
            end).
Proof.
  split; [|split].
  - intros w Hw. apply (reachable_timers_ok w Hw).
  - intros w r Hw. rewrite scheduleFetch_spec, disarmed_nil; [done|].
    by apply reachable_timers_ok.
  - intros w0 r0 rest d Hw Hshown Hgaps Hd.
    destruct (burst_spec rest r0 w0 (reachable_timers_ok w0 Hw) Hshown Hgaps)
      as (w1 & id & Hrun & Ht1 & Hr1 & Hp1 & Hn1).
    destruct (elapse_fire_spec w1 id d _ Ht1 Hd)
      as (w2 & Hs2 & Ht2 & Hnow2 & Hr2 & Hp2).
    exists w1, w2. split; [done|].
    split; [apply sent_app; by rewrite app_nil_r|]. split.
    { intros d' Hd'.
      destruct (elapse_short_spec w1 id d' _ Ht1 Hd')
        as (w' & Hs' & _ & _ & _ & Hr' & _).
      exists w'. split; [done|]. apply sent_app.
      by rewrite Hr', Hr1, app_nil_r. }
    split; [done|].
    split; [apply sent_app; by rewrite Hr2, Hr1|]. split; [done|].
    rewrite Hp2, Hp1, Hn1. split; [done|].
    assert (Hk : pending w2 !! nextTask w0 = Some (KAuth (lastRegion r0 rest))).
    { rewrite Hp2, Hn1. apply lookup_insert_eq. }
    intros [s|].
    + destruct (auth_granted_spec w2 _ _ s Hk)
        as (cleared & w3 & Hs3 & _ & _ & _ & _ & Hrq & -> & _).
      eexists. split; [exact Hs3|]. apply sent_app. cbn. by rewrite Hrq.
    + destruct (auth_refused_spec w2 _ _ Hk) as (w3 & Hs3 & _ & Hrq & _).
      exists w3. split; [exact Hs3|]. apply sent_app. by rewrite app_nil_r.
Qed.

Lemma debounce_starts_one_fetch_witness :
  exists w1 w2,
    run (after 0 listed)
        (burst (mkRegion 40.01 (-74) 0.06 0.06)
               [(100%Z, mkRegion 40.02 (-74) 0.06 0.06);
                (449%Z, mkRegion 40.5 (-74.5) 0.03 0.03)]) = Some w1 /\
    step w1 (Elapse 450) = Some w2 /\
    sent (after 0 listed) w2 = [ReqGetSession] /\
    pending w2 = {[ 4%nat := KAuth (mkRegion 40.5 (-74.5) 0.03 0.03) ]}.
Proof.
  destruct (proj2 (proj2 debounce_starts_one_fetch)
              (after 0 listed) (mkRegion 40.01 (-74) 0.06 0.06)
              [(100%Z, mkRegion 40.02 (-74) 0.06 0.06);
               (449%Z, mkRegion 40.5 (-74.5) 0.03 0.03)] 450%Z)
    as (w1 & w2 & Hrun & _ & _ & Hstep & Hsent & _ & Hp & _).
  - exists 0%Z, listed. vm_compute. reflexivity.
  - vm_compute. reflexivity.
  - repeat constructor; cbn; lia.
  - lia.
  - exists w1, w2. split; [exact Hrun|]. split; [exact Hstep|].
    split; [exact Hsent|]. rewrite Hp. vm_compute. reflexivity.
Defined.

(** C1, as the design states it, fails: with no session at the remote
    store, one viewport change and the delay of the timer start a fetch
    that stops at its authentication check; no session-list query is
    issued. *)
Lemma debounce_without_session_sends_no_query :
  ~ debounce_always_queries.
Proof.
  intros Hclaim.
  pose (r := mkRegion 41 (-74) 0.06 0.06).
  pose (es := burst r [] ++ [Elapse 450; Settle 4 (RSession None)]).
  pose (w3 := default (boot 0) (run (after 0 listed) es)).
  assert (Hnone : queriesSent (after 0 listed) w3 = [])
    by (vm_compute; reflexivity).
  destruct (Hclaim (after 0 listed) w3 r [] 450%Z None) as [t Ht].
  - exists 0%Z, listed. vm_compute. reflexivity.
  - vm_compute. reflexivity.
  - constructor.
  - lia.
  - vm_compute. reflexivity.
  - rewrite Hnone in Ht. discriminate.
Qed.

(** ** Further properties of the screen *)

(** *** The bounding box *)

(** X1. [regionToBounds] takes the spans as they come, without making
    them positive: for a centre that is a number, a negative span gives a
    box whose max is not above its min (unless centre and span are both
    infinite), and a zero span gives [min = max = centre], on both axes. *)
Theorem regionToBounds_spans_as_given :
  forall r : Region,
    is_nan (latitude r) = false -> is_nan (longitude r) = false ->
    let b := regionToBounds r in
    ((latitudeDelta r <? 0)%float = true ->
     is_infinity (latitude r) && is_infinity (latitudeDelta r) = false ->
     (maxLat b <=? minLat b)%float = true) /\
    ((longitudeDelta r <? 0)%float = true ->
     is_infinity (longitude r) && is_infinity (longitudeDelta r) = false ->
     (maxLng b <=? minLng b)%float = true) /\
    ((latitudeDelta r =? 0)%float = true ->
     (minLat b =? latitude r)%float = true /\
     (maxLat b =? latitude r)%float = true) /\
    ((longitudeDelta r =? 0)%float = true ->
     (minLng b =? longitude r)%float = true /\
     (maxLng b =? longitude r)%float = true).
Proof.
  intros [a b c d]. unfold regionToBounds.
  cbn [minLat maxLat minLng maxLng
       latitude longitude latitudeDelta longitudeDelta].
  intros Ha Hb. repeat split; intros;
    first [by apply add_half_le_sub_half
          | by eapply zero_span_collapses].
Qed.

Lemma regionToBounds_spans_as_given_witness :
  let b := regionToBounds (mkRegion 40.0 (-74.0) (-0.06) 0) in
  (maxLat b <=? minLat b)%float = true /\
  (minLng b =? -74.0)%float = true /\ (maxLng b =? -74.0)%float = true.
Proof.
  destruct (regionToBounds_spans_as_given (mkRegion 40.0 (-74.0) (-0.06) 0))
    as (Hlat & _ & _ & Hlng); [reflexivity|reflexivity|].
  split; [apply Hlat; reflexivity | apply Hlng; reflexivity].
Defined.

(** *** Viewport changes at any pace *)

Lemma suspendAll_lookup_lt (rs : list Region) :
  forall (n k : nat) (p : gmap nat Cont),
    k < n -> suspendAll rs n p !! k = p !! k.
Proof.
  induction rs as [|r rs IH]; intros n k p Hk; cbn [suspendAll]; [done|].
  rewrite IH by lia. apply lookup_insert_ne. lia.
Qed.

Lemma suspendAll_lookup (rs : list Region) :
  forall (n i : nat) (p : gmap nat Cont) (r : Region),
    rs !! i = Some r -> suspendAll rs n p !! (n + i) = Some (KAuth r).
Proof.
  induction rs as [|r' rs IH]; intros n i p r Hi; [done|].
  cbn [suspendAll]. destruct i as [|i]; cbn in Hi.
  - injection Hi as ->. rewrite Nat.add_0_r, suspendAll_lookup_lt by lia.
    apply lookup_insert_eq.
  - replace (n + S i) with (S n + i) by lia. by apply IH.
Qed.

Lemma suspendAll_app (rs : list Region) (r : Region) :
  forall (n : nat) (p : gmap nat Cont),
    suspendAll (rs ++ [r]) n p
    = <[n + length rs := KAuth r]> (suspendAll rs n p).
Proof.
  induction rs as [|r' rs IH]; intros n p; cbn [suspendAll app length].
  - by rewrite Nat.add_0_r.
  - rewrite IH. f_equal. lia.
Qed.

(** The armed timer fires: all that the step does. *)
Lemma elapse_fire_frame (w : World) (id d : Z) (r : Region) :
  timers w = [mkTimer id (now w + 450) r] ->
  (450 ≤ d)%Z ->
  exists w',
    step w (Elapse d) = Some w' /\
    timers w' = [] /\
    requests w' = requests w ++ [ReqGetSession] /\
    pending w' = <[nextTask w := KAuth r]> (pending w) /\
    nextTask w' = S (nextTask w) /\
    component w' = component w.
Proof.
  intros Ht Hd. eexists. split.
  - cbn -[elapse]. rewrite bool_decide_true by lia. reflexivity.
  - rewrite exec_elapse, Ht. cbn.
    rewrite decide_True by lia. rewrite decide_False by lia. cbn. done.
Qed.

(** A row of viewport changes at any pace: a fetch has started for each
    change that stayed the last one for 450 ms, and the timer of the last
    change is armed. *)
Lemma burst_fired_spec (rest : list (Z * Region)) :
  forall (r0 : Region) (w : World),
    timers_ok w -> mapShown (component w) = true -> gapsOk rest ->
    exists w' id,
      run w (burst r0 rest) = Some w' /\
      timers w' = [mkTimer id (now w' + 450) (lastRegion r0 rest)] /\
      requests w'
        = requests w ++ ((fun _ => ReqGetSession) <$> fired r0 rest) /\
      pending w' = suspendAll (fired r0 rest) (nextTask w) (pending w) /\
      nextTask w' = nextTask w + length (fired r0 rest).
Proof.
  induction rest as [|[gap r] rest IH]; intros r0 w Hok Hshown Hgaps.
  - destruct (onRegionChangeComplete_spec w r0 Hok Hshown)
      as (w1 & Hs & Ht & Hnow & Hr & Hp & Hn & _).
    exists w1, (nextTimer w). cbn [burst lastRegion fired].
    rewrite (run_step _ _ _ _ Hs), Hnow, Hr, Hp, Hn. cbn.
    rewrite app_nil_r, Nat.add_0_r. done.
  - destruct (onRegionChangeComplete_spec w r0 Hok Hshown)
      as (w1 & Hs1 & Ht1 & Hnow1 & Hr1 & Hp1 & Hn1 & Hshown1).
    pose proof (timers_ok_step _ _ _ Hok Hs1) as Hok1.
    apply Forall_cons in Hgaps as [Hgap Hgaps]. cbn in Hgap.
    rewrite <- Hnow1 in Ht1.
    cbn [burst lastRegion fired]. rewrite (run_step _ _ _ _ Hs1).
    case_bool_decide as Hquiet.
    + destruct (elapse_fire_frame w1 _ gap r0 Ht1 Hquiet)
        as (w2 & Hs2 & Ht2 & Hr2 & Hp2 & Hn2 & Hc2).
      pose proof (timers_ok_step _ _ _ Hok1 Hs2) as Hok2.
      rewrite <- Hc2 in Hshown1.
      destruct (IH r w2 Hok2 Hshown1 Hgaps)
        as (w3 & id & Hrun & Ht3 & Hr3 & Hp3 & Hn3).
      exists w3, id. rewrite (run_step _ _ _ _ Hs2).
      split; [done|]. split; [done|].
      rewrite Hr3, Hr2, Hr1, Hp3, Hp2, Hp1, Hn3, Hn2, Hn1.
      cbn. rewrite <- app_assoc. split; [done|]. split; [done|]. lia.
    + destruct (elapse_short_spec w1 _ gap r0 Ht1 ltac:(lia))
        as (w2 & Hs2 & Ht2 & Hc2 & Hnt2 & Hr2 & Hp2 & Hn2).
      pose proof (timers_ok_step _ _ _ Hok1 Hs2) as Hok2.
      rewrite <- Hc2 in Hshown1.
      destruct (IH r w2 Hok2 Hshown1 Hgaps)
        as (w3 & id & Hrun & Ht3 & Hr3 & Hp3 & Hn3).
      exists w3, id. rewrite (run_step _ _ _ _ Hs2).
      split; [done|]. split; [done|].
      rewrite Hr3, Hr2, Hr1, Hp3, Hp2, Hp1, Hn3, Hn2, Hn1. done.
Qed.

(** X2. Viewport changes at any pace, then 450 ms of rest: the fetches of
    the session list that have started are, in order, those for the
    viewports that stayed the latest for 450 ms or more, the last viewport
    among them; a viewport followed by another one within less than 450 ms
    starts none. Each fetch is at its authentication check, and no timer
    is left armed. *)
Theorem debounce_fires_after_each_rest :
  forall (w0 : World) (r0 : Region) (rest : list (Z * Region)) (d : Z),
    reachable w0 -> mapShown (component w0) = true ->
    gapsOk rest -> (450 ≤ d)%Z ->
    let fetched := fired r0 rest ++ [lastRegion r0 rest] in
    exists w2,
      run w0 (burst r0 rest ++ [Elapse d]) = Some w2 /\
      sent w0 w2 = ((fun _ => ReqGetSession) <$> fetched) /\
      (forall (i : nat) (r : Region),
          fetched !! i = Some r ->
          pending w2 !! (nextTask w0 + i) = Some (KAuth r)) /\
      nextTask w2 = nextTask w0 + length fetched /\
      timers w2 = [].
Proof.
  intros w0 r0 rest d Hw Hshown Hgaps Hd fetched.
  destruct (burst_fired_spec rest r0 w0 (reachable_timers_ok w0 Hw)
              Hshown Hgaps)
    as (w1 & id & Hrun & Ht1 & Hr1 & Hp1 & Hn1).
  destruct (elapse_fire_frame w1 id d _ Ht1 Hd)
    as (w2 & Hs2 & Ht2 & Hr2 & Hp2 & Hn2 & _).
  exists w2. split.
  { rewrite run_app, Hrun. cbn [mbind option_bind].
    by rewrite (run_step _ _ _ _ Hs2). }
  assert (Hp : pending w2 = suspendAll fetched (nextTask w0) (pending w0)).
  { unfold fetched. rewrite suspendAll_app, Hp2, Hp1, Hn1. done. }
  split; [|split; [|split]].
  - apply sent_app. unfold fetched.
    rewrite Hr2, Hr1, fmap_app, <- app_assoc. done.
  - intros i r Hi. rewrite Hp. by apply suspendAll_lookup.
  - unfold fetched. rewrite Hn2, Hn1, length_app. cbn. lia.
  - done.
Qed.

Lemma debounce_fires_after_each_rest_witness :
  exists w2,
    run (after 0 listed)
        (burst (mkRegion 40.01 (-74) 0.06 0.06)
               [(100%Z, mkRegion 40.02 (-74) 0.06 0.06);
                (450%Z, mkRegion 40.03 (-74) 0.06 0.06);
                (2000%Z, mkRegion 40.5 (-74.5) 0.03 0.03)]
         ++ [Elapse 450]) = Some w2 /\
    sent (after 0 listed) w2 = [ReqGetSession; ReqGetSession; ReqGetSession] /\
    timers w2 = [].
Proof.
  destruct (debounce_fires_after_each_rest
              (after 0 listed) (mkRegion 40.01 (-74) 0.06 0.06)
              [(100%Z, mkRegion 40.02 (-74) 0.06 0.06);
               (450%Z, mkRegion 40.03 (-74) 0.06 0.06);
               (2000%Z, mkRegion 40.5 (-74.5) 0.03 0.03)] 450%Z)
    as (w2 & Hrun & Hsent & _ & _ & Ht).
  - exists 0%Z, listed. vm_compute. reflexivity.
  - vm_compute. reflexivity.
  - repeat constructor; cbn; lia.
  - lia.
  - exists w2. split; [exact Hrun|]. split; [exact Hsent | exact Ht].
Defined.

(** *** Queries and authentication checks over a whole run *)

(** Only a fetch at its authentication check takes a session for an
    answer. *)
Lemma settle_session_inv (w w' : World) (task : nat) (s : option Session) :
  step w (Settle task (RSession s)) = Some w' ->
  exists r, pending w !! task = Some (KAuth r).
Proof.
  cbn. unfold settle. destruct (pending w !! task) as [k|]; [|done].
  destruct k; cbn; try done. eauto.
Qed.

Lemma step_queriesSent (w w' : World) (e : Event) :
  step w e = Some w' ->
  exists new,
    requests w' = requests w ++ new /\
    length (omap (fun req => match req with
                             | ReqGames q => Some q
                             | _ => None
                             end) new)
    = (if sessionFound e then 1 else 0).
Proof.
  intros Hstep.
  destruct (step_sent w w' e Hstep) as (new & Hreq & Hnew).
  exists new. split; [done|].
  destruct Hnew as [Hno | (task & r & s & -> & Hk & ->)]; [|done].
  assert (Hnone : omap (fun req => match req with
                                   | ReqGames q => Some q
                                   | _ => None
                                   end) new = []).
  { clear Hreq. induction new as [|req new IH]; [done|].
    cbn. destruct req as [| | |q|]; cbn;
      try (apply IH; intros q' Hq'; apply (Hno q'); by right).
    exfalso. apply (Hno q). by left. }
  rewrite Hnone. cbn.
  destruct e as [|task [| | |[s|]| |]| | | |]; try done.
  exfalso.
  destruct (settle_session_inv _ _ _ _ Hstep) as [r Hk].
  destruct (auth_granted_spec w task r s Hk)
    as (cleared & w1 & Hs1 & _ & _ & _ & _ & Hrq & -> & _).
  rewrite Hstep in Hs1. injection Hs1 as ->.
  cbn in Hreq. rewrite Hrq in Hreq. apply app_inv_head in Hreq.
  apply (Hno (sessionListQuery (regionToBounds r) (now w))).
  rewrite <- Hreq. by left.
Qed.

(** X3. Over any run of the screen, from any world, the requests only
    grow, and the session-list queries sent are as many as the
    authentication checks that were answered with a session: none goes out
    on its own, and none is held back once a session is found. *)
Theorem queries_match_sessions_found :
  forall (es : list Event) (w w' : World),
    run w es = Some w' ->
    requests w' = requests w ++ sent w w' /\
    length (queriesSent w w') = length (filter (fun e => sessionFound e) es).
Proof.
  induction es as [|e es IH]; intros w w'; cbn [run].
  - intros [= <-]. unfold queriesSent, sent.
    rewrite drop_all. cbn. by rewrite app_nil_r.
  - destruct (step w e) as [w1|] eqn:Hs; [|done]. cbn [mbind option_bind].
    intros Hrun. destruct (IH w1 w' Hrun) as (Hreq & Hlen).
    destruct (step_queriesSent w w1 e Hs) as (new & Hreq1 & Hlen1).
    assert (Hsent : sent w w' = new ++ sent w1 w').
    { apply sent_app. rewrite Hreq, Hreq1, <- app_assoc. done. }
    split; [rewrite Hsent, Hreq, Hreq1, <- app_assoc; done|].
    unfold queriesSent in *. rewrite Hsent, omap_app, length_app, Hlen, Hlen1.
    rewrite filter_cons. destruct (sessionFound e); cbn; done.
Qed.

Lemma queries_match_sessions_found_witness :
  length (queriesSent (startup 0) (after 0 panned)) = 2.
Proof.
  destruct (queries_match_sessions_found panned (startup 0) (after 0 panned))
    as (_ & Hlen); [vm_compute; reflexivity|].
  rewrite Hlen. vm_compute. reflexivity.
Defined.

(** *** Overlapping session-list queries *)

(** The settling of a session-list query leaves the other suspended
    functions alone. *)
Lemma fetchGamesInRegion_done_frame (w : World) (task : nat)
    (data : option (list Game)) (error : option PostgrestError) :
  pending w !! task = Some KGames ->
  exists w',
    step w (Settle task (RGames data error)) = Some w' /\
    pending w' = delete task (pending w) /\
    loadingCount (component w') = loadingCount (component w).
Proof.
  intros Hk. eexists. split.
  - eapply settle_resume; [exact Hk | reflexivity].
  - destruct error; cbn; done.
Qed.

(** X4. With two session-list queries out at once, no response is held
    back or dropped for being late: each one that succeeds replaces the
    visible list, so the list that stays is that of the response that
    arrives last, whichever query was sent first. The loading-games flag
    is cleared by the first response, while the other query is still
    out. *)
Theorem session_list_last_response_wins :
  forall (w : World) (t1 t2 : nat) (rows1 rows2 : list Game),
    t1 ≠ t2 ->
    pending w !! t1 = Some KGames ->
    pending w !! t2 = Some KGames ->
    exists w1 w2,
      step w (Settle t1 (RGames (Some rows1) None)) = Some w1 /\
      games (component w1) = rows1 /\
      loadingGames (component w1) = false /\
      pending w1 !! t2 = Some KGames /\
      step w1 (Settle t2 (RGames (Some rows2) None)) = Some w2 /\
      games (component w2) = rows2.
Proof.
  intros w t1 t2 rows1 rows2 Hne Hk1 Hk2.
  destruct (fetchGamesInRegion_done_spec w t1 (Some rows1) None Hk1)
    as (w1 & Hs1 & Hg1 & _ & Hl1 & _).
  assert (Hk2' : pending w1 !! t2 = Some KGames).
  { destruct (fetchGamesInRegion_done_frame w t1 (Some rows1) None Hk1)
      as (w1' & Hs1' & Hp1 & _).
    rewrite Hs1 in Hs1'. injection Hs1' as <-.
    rewrite Hp1, lookup_delete_ne by done. exact Hk2. }
  destruct (fetchGamesInRegion_done_spec w1 t2 (Some rows2) None Hk2')
    as (w2 & Hs2 & Hg2 & _).
  exists w1, w2. done.
Qed.

Lemma session_list_last_response_wins_witness :
  exists w2,
    run (after 0 overlapped)
        [Settle 5 (RGames (Some [gameB]) None);
         Settle 3 (RGames (Some [gameA]) None)] = Some w2 /\
    games (component w2) = [gameA].
Proof.
  destruct (session_list_last_response_wins
              (after 0 overlapped) 5 3 [gameB] [gameA])
    as (w1 & w2 & Hs1 & _ & _ & _ & Hs2 & Hg);
    [lia | vm_compute; reflexivity | vm_compute; reflexivity |].
  exists w2. split; [|exact Hg].
  rewrite (run_step _ _ _ _ Hs1), (run_step _ _ _ _ Hs2). reflexivity.
Defined.

(** *** What stays on screen *)

Lemma resume_shown (k : Cont) (resp : Response) (m : M unit) (w : World) :
  resume k resp = Some m ->
  mapShown (component w) = true ->
  mapShown (component (exec m w)) = true.
Proof.
  unfold mapShown.
  destruct k, resp; cbn; try done; intros [= <-];
    repeat match goal with
           | x : option _ |- _ => destruct x
           | x : PermissionStatus |- _ => destruct x
           end; cbn; try done;
    destruct (loadingLocation (component w)); done.
Qed.

Lemma step_shown (w w' : World) (e : Event) :
  step w e = Some w' ->
  mapShown (component w) = true -> mapShown (component w') = true.
Proof.
  destruct e as [dt|task resp|r|i| |]; cbn -[elapse].
  - case_bool_decide; [|done]. intros [= <-].
    change ((elapse dt w).2) with (exec (elapse dt) w).
    rewrite exec_elapse.
    match goal with |- context [exec (fire ?d) ?v] =>
      destruct (fire_spec d v) as (_ & -> & _) end. done.
  - unfold settle. destruct (pending w !! task) as [k|]; [|done]. cbn.
    destruct (resume k resp) as [m|] eqn:Hm; [|done]. cbn. intros [= <-].
    change ((m (forget task w)).2) with (exec m (forget task w)).
    apply (resume_shown k resp m (forget task w) Hm).
  - destruct (mapShown (component w)) eqn:Hsh; [|done]. intros [= <-] _.
    unfold onRegionChangeComplete.
    change ((?m w).2) with (exec m w).
    rewrite exec_bind, scheduleFetch_spec. unfold mapShown in *. cbn in *.
    destruct (loadingLocation (component w)); done.
  - destruct (mapShown (component w)) eqn:Hsh; [|done].
    destruct (games (component w) !! i) as [g|]; [|done]. cbn.
    intros [= <-] _. exact Hsh.
  - destruct (cardShown (component w)); [|done]. intros [= <-]. done.
  - destruct (cardShown (component w)); [|done]. intros [= <-]. done.
Qed.

Lemma lastChar_app (s t : string) :
  t ≠ EmptyString -> lastChar (s +:+ t) = lastChar t.
Proof.
  intros Ht. induction s as [|c s IH]; [done|].
  change (String c s +:+ t) with (String c (s +:+ t)).
  destruct (s +:+ t) as [|c' u] eqn:Hst.
  - destruct s; simpl in Hst; [by destruct (Ht Hst) | discriminate].
  - rewrite <- IH. reflexivity.
Qed.

(** X5. Once the map is on screen it stays: whatever happens next (time
    passing, responses and errors of any request, a missing session, user
    input), the render never goes back to the activity indicator, and the
    header over the map never reads [Getting your location…]. *)
Theorem map_stays_on_screen :
  forall (es : list Event) (w w' : World),
    mapShown (component w) = true ->
    run w es = Some w' ->
    render (component w') = MapScreenView (headerText (component w')) /\
    headerText (component w') ≠ "Getting your location…".
Proof.
  intros es w w' Hshown Hrun.
  assert (Hsh : mapShown (component w') = true).
  { apply (run_invariant (fun v => mapShown (component v) = true))
      with (es := es) (w := w); [|done|done].
    intros v e v' Hv Hs. by eapply step_shown. }
  unfold mapShown in Hsh. unfold render, headerText.
  destruct (loadingLocation (component w')); [done|].
  cbn in Hsh |- *.
  destruct (bool_decide (is_Some (region (component w')))); [|done].
  cbn. split; [done|].
  destruct (loadingGames (component w')); [done|].
  intros H. apply (f_equal lastChar) in H.
  rewrite lastChar_app in H by done. discriminate.
Qed.

Lemma map_stays_on_screen_witness :
  render (component (after 0 panned)) = MapScreenView "Loading games…".
Proof.
  destruct (map_stays_on_screen
              [Elapse 500;
               RegionChangeComplete (mkRegion 41 (-74) 0.06 0.06);
               Elapse 450;
               Settle 4 (RSession (Some (mkSession "token")))]
              (after 0 listed) (after 0 panned))
    as (Hr & _); [vm_compute; reflexivity .. |].
  rewrite Hr. vm_compute. reflexivity.
Defined.

(** *** Startup that does not reach the map *)

(** Permission granted, then the position request rejected: the world is
    this one. *)
Lemma mount_rejected_spec (t0 : Z) :
  run (startup t0) [Settle 0 (RPermission granted); Settle 1 RPositionRejected]
  = Some (mkWorld initialState t0 [] 1 ∅ 2 [] []
                  [ReqPermission; ReqPosition]).
Proof. vm_compute. reflexivity. Qed.

(** X6. When the position request is rejected, the effect ends there: no
    alert is raised, no session-list fetch ever starts, and the screen
    keeps the activity indicator under [Getting your location…] whatever
    happens afterwards. When the permission is not granted, the screen
    keeps the activity indicator as well, under [0 game(s) in view]. *)
Theorem startup_failures_keep_spinner :
  (forall (t0 : Z) (es : list Event) (w' : World),
      run (startup t0)
          ([Settle 0 (RPermission granted); Settle 1 RPositionRejected] ++ es)
        = Some w' ->
      render (component w') = SpinnerView "Getting your location…" /\
      alerts w' = [] /\
      requests w' = [ReqPermission; ReqPosition]) /\
  (forall (t0 : Z) (status : PermissionStatus) (es : list Event) (w' : World),
      status ≠ granted ->
      run (startup t0) (Settle 0 (RPermission status) :: es) = Some w' ->
      render (component w') = SpinnerView "0 game(s) in view" /\
      alerts w' = [locationNeededAlert] /\
      requests w' = [ReqPermission]).
Proof.
  split.
  - intros t0 es w'. rewrite run_app, mount_rejected_spec.
    cbn [mbind option_bind]. intros Hrun.
    match type of Hrun with run ?v _ = _ =>
      assert (Hh : halted v) by (by repeat split) end.
    destruct (halted_run es _ w' Hh Hrun) as (_ & -> & -> & ->). done.
  - intros t0 status es w' Hst.
    assert (Hs : step (startup t0) (Settle 0 (RPermission status))
                 = Some (exec (mount_permission status)
                              (forget 0 (startup t0)))).
    { apply settle_resume with (k := KPermission); reflexivity. }
    rewrite (run_step _ _ _ _ Hs). intros Hrun.
    assert (Hh : halted (exec (mount_permission status)
                              (forget 0 (startup t0)))).
    { destruct status; [done| |]; repeat split. }
    destruct (halted_run es _ w' Hh Hrun) as (_ & -> & -> & ->).
    destruct status; done.
Qed.

Lemma startup_failures_keep_spinner_witness :
  render (component (after 0 [Settle 0 (RPermission denied); Elapse 1000]))
  = SpinnerView "0 game(s) in view".
Proof.
  apply (proj2 startup_failures_keep_spinner 0%Z denied [Elapse 1000]);
    [discriminate | vm_compute; reflexivity].
Defined.

(** *** The selection *)

(** A resumed function selects nothing and sends no count query. *)
Lemma resume_selection (k : Cont) (resp : Response) (m : M unit) (w : World) :
  resume k resp = Some m ->
  (forall g : Game,
      selected (component (exec m w)) = Some g ->
      selected (component w) = Some g) /\
  exists new,
    requests (exec m w) = requests w ++ new /\ forall q, ReqCount q ∉ new.
Proof.
  destruct k, resp as [status| | |[s|]| |]; cbn; try done; intros [= <-].
  - destruct status; cbn; (split; [done|]).
    + exists [ReqPosition]. split; [done|]. intros q Hq.
      apply list_elem_of_singleton in Hq. done.
    + exists []. split; [by rewrite app_nil_r|]. intros q Hq.
      by apply elem_of_nil in Hq.
    + exists []. split; [by rewrite app_nil_r|]. intros q Hq.
      by apply elem_of_nil in Hq.
  - split; [done|]. exists [ReqGetSession]. split; [done|]. intros q Hq.
    apply list_elem_of_singleton in Hq. done.
  - split; [done|]. exists []. split; [by rewrite app_nil_r|]. intros q Hq.
    by apply elem_of_nil in Hq.
  - split; [done|]. eexists. split; [reflexivity|]. intros q Hq.
    apply list_elem_of_singleton in Hq. done.
  - split; [done|]. exists []. split; [by rewrite app_nil_r|]. intros q Hq.
    by apply elem_of_nil in Hq.
  - split; [by destruct error|]. exists [].
    split; [destruct error; cbn; by rewrite app_nil_r|].
    intros q Hq. by apply elem_of_nil in Hq.
  - split; [by destruct error|]. exists [].
    split; [destruct error; cbn; by rewrite app_nil_r|].
    intros q Hq. by apply elem_of_nil in Hq.
Qed.

(** X7. The card only ever comes to show a session through a press on its
    marker: a step that leaves a session selected either found it
    selected already, or is the press on a marker of the visible list,
    which selects the session of that marker, nulls the count, sets the
    loading flag and sends the count query of that one session. No other
    step sends a count query. *)
Theorem selection_only_by_marker_press :
  forall (w w' : World) (e : Event),
    step w e = Some w' ->
    (forall g : Game,
        selected (component w') = Some g ->
        selected (component w) = Some g \/
        exists i,
          e = MarkerPress i /\
          games (component w) !! i = Some g /\
          sent w w' = [ReqCount (countQuery g)] /\
          playerCount (component w') = None /\
          loadingCount (component w') = true) /\
    (forall q : Query,
        ReqCount q ∈ sent w w' ->
        exists i g,
          e = MarkerPress i /\
          games (component w) !! i = Some g /\
          q = countQuery g /\
          selected (component w') = Some g).
Proof.
  intros w w' e.
  destruct e as [dt|task resp|r|i| |]; cbn -[elapse].
  - case_bool_decide; [|done]. intros [= <-].
    change ((elapse dt w).2) with (exec (elapse dt) w).
    rewrite exec_elapse.
    match goal with |- context [exec (fire ?d) ?v] =>
      destruct (fire_spec d v) as (Hr & Hc & _) end.
    rewrite Hc. cbn. split; [auto|].
    intros q Hq. rewrite (sent_app w _ _ Hr) in Hq.
    apply list_elem_of_fmap in Hq as (? & [=] & _).
  - unfold settle. destruct (pending w !! task) as [k|] eqn:Hk; [|done]. cbn.
    destruct (resume k resp) as [m|] eqn:Hm; [|done]. cbn. intros [= <-].
    change ((m (forget task w)).2) with (exec m (forget task w)).
    destruct (resume_selection k resp m (forget task w) Hm)
      as (Hsel & new & Hr & Hno).
    split; [intros g Hg; left; by apply Hsel|].
    intros q Hq. rewrite (sent_app w _ _ Hr) in Hq. by apply Hno in Hq.
  - destruct (mapShown (component w)); [|done]. intros [= <-].
    unfold onRegionChangeComplete.
    change ((?m w).2) with (exec m w).
    rewrite exec_bind, scheduleFetch_spec. cbn. split; [auto|].
    intros q Hq. unfold sent in Hq. cbn in Hq. rewrite drop_all in Hq.
    by apply elem_of_nil in Hq.
  - destruct (mapShown (component w)) eqn:Hsh; [|done].
    destruct (games (component w) !! i) as [g|] eqn:Hg; [|done]. cbn.
    intros Hstep.
    destruct (onSelectGame_spec w i g Hsh Hg)
      as (w1 & Hs1 & Hsel & Hcnt & Hld & _ & _ & Hr & _).
    cbn in Hs1. rewrite Hsh, Hg in Hs1. cbn in Hs1.
    rewrite Hs1 in Hstep. injection Hstep as <-.
    rewrite (sent_app _ _ _ Hr). split.
    + intros g' Hg'. rewrite Hsel in Hg'. injection Hg' as <-.
      right. exists i. done.
    + intros q Hq. apply list_elem_of_singleton in Hq as [= ->].
      exists i, g. done.
  - destruct (cardShown (component w)); [|done]. intros [= <-]. cbn.
    split; [done|]. intros q Hq. unfold sent in Hq. cbn in Hq.
    rewrite drop_all in Hq. by apply elem_of_nil in Hq.
  - destruct (cardShown (component w)); [|done]. intros [= <-]. cbn.
    split; [auto|]. intros q Hq. unfold sent in Hq. cbn in Hq.
    rewrite drop_all in Hq. by apply elem_of_nil in Hq.
Qed.

Lemma selection_only_by_marker_press_witness :
  selected (component (after 0 listed)) = Some gameB \/
  exists i,
    MarkerPress 1 = MarkerPress i /\
    games (component (after 0 listed)) !! i = Some gameB /\
    sent (after 0 listed) (after 0 (listed ++ [MarkerPress 1]))
      = [ReqCount (countQuery gameB)] /\
    playerCount (component (after 0 (listed ++ [MarkerPress 1]))) = None /\
    loadingCount (component (after 0 (listed ++ [MarkerPress 1]))) = true.
Proof.
  apply (proj1 (selection_only_by_marker_press
                  (after 0 listed) (after 0 (listed ++ [MarkerPress 1]))
                  (MarkerPress 1) ltac:(vm_compute; reflexivity)) gameB).
  vm_compute. reflexivity.
Defined.

(** X8. Closing the card unselects the session and does nothing else: the
    count and its loading flag stay as they are, nothing is sent, and a
    count fetch that is out is not cancelled. When that fetch settles
    later, its result is stored, yet no session is selected and the card
    stays closed. *)
Theorem close_hides_card_only :
  forall (w : World),
    cardShown (component w) = true ->
    exists w1,
      step w ClosePress = Some w1 /\
      selected (component w1) = None /\
      cardShown (component w1) = false /\
      playerCount (component w1) = playerCount (component w) /\
      loadingCount (component w1) = loadingCount (component w) /\
      games (component w1) = games (component w) /\
      sent w w1 = [] /\
      pending w1 = pending w /\
      forall (task : nat) (g : Game) (count : option Z)
             (error : option PostgrestError),
        pending w !! task = Some (KCount g) ->
        exists w2,
          step w1 (Settle task (RCount count error)) = Some w2 /\
          playerCount (component w2) = countShown count error /\
          loadingCount (component w2) = false /\
          selected (component w2) = None /\
          cardShown (component w2) = false.
Proof.
  intros w Hshown.
  assert (Hs : step w ClosePress = Some (exec onClosePress w))
    by (cbn; rewrite Hshown; reflexivity).
  exists (exec onClosePress w). split; [exact Hs|].
  split; [reflexivity|]. split.
  { unfold cardShown. cbn. apply andb_false_r. }
  repeat (split; [reflexivity|]). split.
  { apply sent_app. cbn. by rewrite app_nil_r. }
  split; [reflexivity|].
  intros task g count error Hk.
  destruct (onSelectGame_done_spec (exec onClosePress w) task g count error Hk)
    as (w2 & Hs2 & Hc & Hl & Hsel & _).
  exists w2. split; [done|]. split; [done|]. split; [done|].
  cbn in Hsel. split; [done|].
  unfold cardShown. rewrite Hsel. apply andb_false_r.
Qed.

Lemma close_hides_card_only_witness :
  exists w2,
    run (after 0 tapped) [ClosePress; Settle 4 (RCount (Some 7%Z) None)]
      = Some w2 /\
    playerCount (component w2) = Some 7%Z /\
    selected (component w2) = None.
Proof.
  destruct (close_hides_card_only (after 0 tapped))
    as (w1 & Hs1 & _ & _ & _ & _ & _ & _ & _ & Hlate);
    [vm_compute; reflexivity|].
  destruct (Hlate 4 gameA (Some 7%Z) None) as (w2 & Hs2 & Hc & _ & Hsel & _);
    [vm_compute; reflexivity|].
  exists w2. rewrite (run_step _ _ _ _ Hs1), (run_step _ _ _ _ Hs2).
  split; [reflexivity|]. split; [exact Hc | exact Hsel].
Defined.

(** *** Tasks are never reused *)

Lemma suspendAll_is_Some (rs : list Region) :
  forall (n k : nat) (p : gmap nat Cont),
    is_Some (suspendAll rs n p !! k) ->
    k < n + length rs \/ is_Some (p !! k).
Proof.
  induction rs as [|r rs IH]; intros n k p Hk; cbn [suspendAll] in Hk.
  - by right.
  - apply IH in Hk as [Hk | Hk]; [left; cbn; lia|].
    destruct (decide (n = k)) as [->|Hne]; [left; cbn; lia|].
    rewrite lookup_insert_ne in Hk by done. by right.
Qed.

Lemma fire_pending (due : list Timer) (w : World) :
  pending (exec (fire due) w)
    = suspendAll (timer_region <$> due) (nextTask w) (pending w) /\
  nextTask (exec (fire due) w) = nextTask w + length due.
Proof.
  revert w. induction due as [|t due IH]; intros w; cbn [fire].
  - cbn. by rewrite Nat.add_0_r.
  - rewrite exec_bind.
    destruct (IH (exec (fetchGamesInRegion (timer_region t)) w)) as (-> & ->).
    cbn. split; [done | lia].
Qed.

(** A resumed function suspends again on a new task, or not at all. *)
Lemma resume_pending (k : Cont) (resp : Response) (m : M unit) (w : World) :
  resume k resp = Some m ->
  (pending (exec m w) = pending w /\ nextTask (exec m w) = nextTask w) \/
  (exists c, pending (exec m w) = <[nextTask w := c]> (pending w) /\
             nextTask (exec m w) = S (nextTask w)).
Proof.
  destruct k, resp as [status| | |[s|]| |]; cbn; try done; intros [= <-];
    try (by left); try (right; eexists; split; reflexivity).
  - destruct status; [right; eexists; split; reflexivity | by left..].
  - destruct error; by left.
  - destruct error; by left.
Qed.

Lemma tasks_fresh_step (w w' : World) (e : Event) :
  tasks_fresh w -> step w e = Some w' -> tasks_fresh w'.
Proof.
  intros Hf.
  destruct e as [dt|task resp|r|i| |]; cbn -[elapse].
  - case_bool_decide; [|done]. intros [= <-].
    change ((elapse dt w).2) with (exec (elapse dt) w).
    rewrite exec_elapse.
    match goal with |- tasks_fresh (exec (fire ?d) ?v) =>
      destruct (fire_pending d v) as (Hp & Hn) end.
    intros k Hk. rewrite Hp in Hk. rewrite Hn. cbn in *.
    apply suspendAll_is_Some in Hk as [Hk | Hk].
    + by rewrite length_fmap in Hk.
    + apply Hf in Hk. lia.
  - unfold settle. destruct (pending w !! task) as [c|]; [|done]. cbn.
    destruct (resume c resp) as [m|] eqn:Hm; [|done]. cbn. intros [= <-].
    change ((m (forget task w)).2) with (exec m (forget task w)).
    assert (Hf' : tasks_fresh (forget task w)).
    { intros k Hk. cbn in Hk. apply Hf.
      destruct (decide (task = k)) as [->|Hne].
      - rewrite lookup_delete_eq in Hk. by destruct Hk.
      - by rewrite lookup_delete_ne in Hk. }
    destruct (resume_pending c resp m (forget task w) Hm)
      as [(Hp & Hn) | (c' & Hp & Hn)]; intros k Hk; rewrite Hp in Hk;
      rewrite Hn.
    + by apply Hf'.
    + destruct (decide (nextTask (forget task w) = k)) as [<-|Hne]; [lia|].
      rewrite lookup_insert_ne in Hk by done. apply Hf' in Hk. lia.
  - destruct (mapShown (component w)); [|done]. intros [= <-].
    unfold onRegionChangeComplete.
    change ((?m w).2) with (exec m w).
    rewrite exec_bind, scheduleFetch_spec. exact Hf.
  - destruct (mapShown (component w)); [|done].
    destruct (games (component w) !! i) as [g|]; [|done]. cbn.
    intros [= <-]. intros k Hk.
    change (pending (exec (onMarkerPress g) w))
      with (<[nextTask w := KCount g]> (pending w)) in Hk.
    change (nextTask (exec (onMarkerPress g) w)) with (S (nextTask w)).
    destruct (decide (nextTask w = k)) as [<-|Hne]; [lia|].
    rewrite lookup_insert_ne in Hk by done. apply Hf in Hk. lia.
  - destruct (cardShown (component w)); [|done]. intros [= <-]. exact Hf.
  - destruct (cardShown (component w)); [|done]. intros [= <-]. exact Hf.
Qed.

Lemma reachable_tasks_fresh (w : World) : reachable w -> tasks_fresh w.
Proof.
  intros (t0 & es & Hrun).
  eapply (run_invariant tasks_fresh); [| |exact Hrun].
  - intros v e v' Hv Hs. by eapply tasks_fresh_step.
  - intros k Hk.
    change (pending (startup t0))
      with (<[0 := KPermission]> (∅ : gmap nat Cont)) in Hk.
    change (nextTask (startup t0)) with 1.
    destruct (decide (0 = k)) as [<-|Hne]; [lia|].
    rewrite lookup_insert_ne in Hk by done.
    rewrite lookup_empty in Hk. by destruct Hk.
Qed.

(** X9. A session selected while a session-list query is out stays
    selected when the query is answered: the rows of the response replace
    the visible list, whether or not the selected session is among them,
    and the card, its count and its loading flag are left as they are. *)
Theorem selection_survives_new_list :
  forall (w : World) (task i : nat) (g : Game) (rows : list Game),
    reachable w ->
    pending w !! task = Some KGames ->
    mapShown (component w) = true ->
    games (component w) !! i = Some g ->
    exists w1 w2,
      step w (MarkerPress i) = Some w1 /\
      step w1 (Settle task (RGames (Some rows) None)) = Some w2 /\
      games (component w2) = rows /\
      selected (component w2) = Some g /\
      cardShown (component w2) = true /\
      playerCount (component w2) = None /\
      loadingCount (component w2) = true.
Proof.
  intros w task i g rows Hw Hk Hshown Hg.
  destruct (onSelectGame_spec w i g Hshown Hg)
    as (w1 & Hs1 & Hsel & Hcnt & Hld & _ & Hshown1 & _ & Hp1 & _).
  assert (Hfresh : pending w1 !! task = Some KGames).
  { pose proof (reachable_tasks_fresh w Hw task) as Hlt.
    rewrite Hk in Hlt. specialize (Hlt ltac:(eauto)).
    rewrite Hp1, lookup_insert_ne by lia. exact Hk. }
  destruct (fetchGamesInRegion_done_spec w1 task (Some rows) None Hfresh)
    as (w2 & Hs2 & Hg2 & _ & _ & Hsel2 & Hcnt2 & _).
  destruct (fetchGamesInRegion_done_frame w1 task (Some rows) None Hfresh)
    as (w2' & Hs2' & _ & Hld2).
  rewrite Hs2 in Hs2'. injection Hs2' as <-.
  exists w1, w2. rewrite Hsel2, Hcnt2, Hld2. repeat (split; [done|]).
  split; [|done].
  assert (Hsh2 : mapShown (component w2) = true) by (by eapply step_shown).
  unfold cardShown. rewrite Hsh2, Hsel2, Hsel. done.
Qed.

Lemma selection_survives_new_list_witness :
  exists w2,
    run (after 0 panned) [MarkerPress 0; Settle 5 (RGames (Some [gameB]) None)]
      = Some w2 /\
    games (component w2) = [gameB] /\
    selected (component w2) = Some gameA.
Proof.
  destruct (selection_survives_new_list (after 0 panned) 5 0 gameA [gameB])
    as (w1 & w2 & Hs1 & Hs2 & Hg & Hsel & _).
  - exists 0%Z, panned. vm_compute. reflexivity.
  - vm_compute. reflexivity.
  - vm_compute. reflexivity.
  - vm_compute. reflexivity.
  - exists w2. rewrite (run_step _ _ _ _ Hs1), (run_step _ _ _ _ Hs2).
    split; [reflexivity|]. split; [exact Hg | exact Hsel].
Defined.

(** *** The location service is asked once *)

Lemma suspendAll_lookup_inv (rs : list Region) :
  forall (n k : nat) (p : gmap nat Cont),
    suspendAll rs n p !! k = Some KPermission -> p !! k = Some KPermission.
Proof.
  induction rs as [|r rs IH]; intros n k p Hk; cbn [suspendAll] in Hk; [done|].
  apply IH in Hk. destruct (decide (n = k)) as [->|Hne].
  - by rewrite lookup_insert_eq in Hk.
  - by rewrite lookup_insert_ne in Hk.
Qed.

(** What a resumed function asks of the location service: the position,
    once, when it is the effect resuming with the permission granted, and
    nothing otherwise; and it is never left waiting for the permission
    again. *)
Lemma resume_location (k : Cont) (resp : Response) (m : M unit) (w : World) :
  resume k resp = Some m ->
  exists new,
    requests (exec m w) = requests w ++ new /\
    filter (fun req => isPermission req) new = [] /\
    length (filter (fun req => isPosition req) new)
      = (if asksPosition k resp then 1 else 0) /\
    nextTask w <= nextTask (exec m w) /\
    forall j, pending (exec m w) !! j = Some KPermission ->
              pending w !! j = Some KPermission.
Proof.
  destruct k, resp as [status| | |[s|]| |]; cbn; try done; intros [= <-];
    unfold exec, mount_position, fetchGamesInRegion, ensureAuthedOrWarn,
      fetchGamesInRegion_authed, ensureAuthedOrWarn_resume, mbind, M_bind,
      mret, M_ret; cbn.
  - destruct status; cbn.
    + exists [ReqPosition]. unfold mount_permission.
      rewrite bool_decide_false by (intros H; by apply H). cbn.
      repeat (split; [done|]). split; [lia|]. intros j Hj.
      destruct (decide (nextTask w = j)) as [<-|Hne].
      * by rewrite lookup_insert_eq in Hj.
      * by rewrite lookup_insert_ne in Hj.
    + exists []. by rewrite app_nil_r.
    + exists []. by rewrite app_nil_r.
  - exists [ReqGetSession].
    repeat (split; [done|]). split; [lia|]. intros j Hj.
    destruct (decide (nextTask w = j)) as [<-|Hne].
    + by rewrite lookup_insert_eq in Hj.
    + by rewrite lookup_insert_ne in Hj.
  - exists []. by rewrite app_nil_r.
  - eexists. split; [reflexivity|]. repeat (split; [done|]). split; [lia|].
    intros j Hj. destruct (decide (nextTask w = j)) as [<-|Hne].
    + by rewrite lookup_insert_eq in Hj.
    + by rewrite lookup_insert_ne in Hj.
  - exists []. by rewrite app_nil_r.
  - exists []. destruct error; cbn; by rewrite app_nil_r.
  - exists []. destruct error; cbn; by rewrite app_nil_r.
Qed.

Lemma location_once_step (w w' : World) (e : Event) :
  location_once w -> step w e = Some w' -> location_once w'.
Proof.
  intros (Hperm & Hpos & Hnt & Hkp).
  destruct e as [dt|task resp|r|i| |]; cbn -[elapse].
  - case_bool_decide; [|done]. intros [= <-].
    change ((elapse dt w).2) with (exec (elapse dt) w).
    rewrite exec_elapse.
    match goal with |- location_once (exec (fire ?d) ?v) =>
      destruct (fire_pending d v) as (Hp & Hn);
      destruct (fire_spec d v) as (Hr & _) end.
    assert (Hnone : forall f : Request -> bool,
               f ReqGetSession = false ->
               forall due : list Timer,
                 filter (fun req => f req)
                        ((fun _ : Timer => ReqGetSession) <$> due) = []).
    { intros f Hf due. induction due as [|t due IH]; [done|].
      rewrite fmap_cons, filter_cons_False; [exact IH|].
      cbn. rewrite Hf. intros []. }
    unfold location_once. rewrite Hr, Hp, Hn, !filter_app, !length_app.
    rewrite !Hnone by done. cbn. rewrite !Nat.add_0_r.
    repeat (split; [done || lia|]).
    intros k Hk. apply suspendAll_lookup_inv in Hk. by apply Hkp.
  - unfold settle. destruct (pending w !! task) as [c|] eqn:Hc; [|done]. cbn.
    destruct (resume c resp) as [m|] eqn:Hm; [|done]. cbn. intros [= <-].
    change ((m (forget task w)).2) with (exec m (forget task w)).
    destruct (resume_location c resp m (forget task w) Hm)
      as (new & Hr & Hnp & Hnpos & Hn & Hpend).
    assert (Hgone : forall j,
               pending (exec m (forget task w)) !! j = Some KPermission ->
               j ≠ task /\ pending w !! j = Some KPermission).
    { intros j Hj. apply Hpend in Hj. cbn in Hj.
      destruct (decide (task = j)) as [->|Hne].
      - by rewrite lookup_delete_eq in Hj.
      - by rewrite lookup_delete_ne in Hj. }
    unfold location_once. rewrite Hr. cbn [requests forget].
    rewrite !filter_app, !length_app, Hnp, Hnpos. cbn [length].
    split; [lia|]. cbn in Hn.
    destruct (asksPosition c resp) eqn:Hcase.
    + assert (c = KPermission) as -> by (by destruct c).
      destruct (Hkp task Hc) as [-> Hzero].
      split; [lia|]. split; [lia|].
      intros j Hj. apply Hgone in Hj as [Hne Hj].
      apply Hkp in Hj as [-> _]. done.
    + split; [lia|]. split; [lia|].
      intros j Hj. apply Hgone in Hj as [Hne Hj].
      apply Hkp in Hj as [-> Hz]. split; [done | lia].
  - destruct (mapShown (component w)); [|done]. intros [= <-].
    unfold onRegionChangeComplete.
    change ((?m w).2) with (exec m w).
    rewrite exec_bind, scheduleFetch_spec. done.
  - destruct (mapShown (component w)); [|done].
    destruct (games (component w) !! i) as [g|]; [|done]. cbn.
    intros [= <-]. unfold location_once.
    change (requests (exec (onMarkerPress g) w))
      with (requests w ++ [ReqCount (countQuery g)]).
    change (pending (exec (onMarkerPress g) w))
      with (<[nextTask w := KCount g]> (pending w)).
    change (nextTask (exec (onMarkerPress g) w)) with (S (nextTask w)).
    rewrite !filter_app, !length_app. cbn. rewrite !Nat.add_0_r.
    repeat (split; [done || lia|]).
    intros k Hk. destruct (decide (nextTask w = k)) as [<-|Hne].
    + by rewrite lookup_insert_eq in Hk.
    + rewrite lookup_insert_ne in Hk by done. by apply Hkp.
  - destruct (cardShown (component w)); [|done]. intros [= <-]. done.
  - destruct (cardShown (component w)); [|done]. intros [= <-]. done.
Qed.

(** X10. In every world the screen can reach, the location permission has
    been asked exactly once and the position at most once: nothing that
    happens later (a denial, a rejected position, failed queries, user
    input) makes the effect ask again. *)
Theorem location_asked_once :
  forall w : World,
    reachable w ->
    length (filter (fun req => isPermission req) (requests w)) = 1 /\
    length (filter (fun req => isPosition req) (requests w)) <= 1.
Proof.
  intros w (t0 & es & Hrun).
  assert (Hinv : location_once w).
  { eapply (run_invariant location_once); [| |exact Hrun].
    - intros v e v' Hv Hs. by eapply location_once_step.
    - split; [reflexivity|]. split; [vm_compute; lia|].
      split; [vm_compute; lia|]. intros k Hk.
      change (pending (startup t0))
        with (<[0 := KPermission]> (∅ : gmap nat Cont)) in Hk.
      destruct (decide (0 = k)) as [<-|Hne]; [done|].
      by rewrite lookup_insert_ne, lookup_empty in Hk. }
  destruct Hinv as (Hperm & Hpos & _). done.
Qed.

Lemma location_asked_once_witness :
  length (filter (fun req => isPosition req) (requests (after 0 panned))) <= 1.
Proof.
  apply (location_asked_once (after 0 panned)).
  exists 0%Z, panned. vm_compute. reflexivity.
Defined.

(** *** The status bar and the visible list *)

(** X11. Over the map, the status bar follows a fetch of the session
    list: once the fetch is past its authentication check the header
    reads [Loading games…]; when the query is answered the header counts
    the rows of the response, and when it fails the sessions that were
    listed before. *)
Theorem header_follows_fetch :
  forall (w : World) (task : nat) (r : Region) (s : Session),
    pending w !! task = Some (KAuth r) ->
    mapShown (component w) = true ->
    exists w1,
      step w (Settle task (RSession (Some s))) = Some w1 /\
      render (component w1) = MapScreenView "Loading games…" /\
      forall (data : option (list Game)) (error : option PostgrestError),
      exists w2,
        step w1 (Settle (nextTask w) (RGames data error)) = Some w2 /\
        render (component w2)
          = MapScreenView
              (pretty (length (match error with
                               | Some _ => games (component w)
                               | None => default [] data
                               end))
               +:+ " game(s) in view").
Proof.
  intros w task r s Hk Hshown.
  destruct (auth_granted_spec w task r s Hk)
    as (cleared & w1 & Hs1 & _ & _ & Hl & Hg & _ & Hw1 & Hnt & _).
  assert (Hshown1 : mapShown (component w1) = true) by (by eapply step_shown).
  assert (Hc1 : component w1 = component cleared) by (by rewrite Hw1).
  exists w1. split; [done|]. split.
  { unfold mapShown in Hshown1. unfold render, headerText.
    rewrite Hc1 in Hshown1 |- *. rewrite Hl.
    destruct (loadingLocation (component cleared)); [done|].
    cbn in Hshown1 |- *.
    by destruct (bool_decide (is_Some (region (component cleared)))). }
  intros data error.
  assert (Hk1 : pending w1 !! nextTask w = Some KGames).
  { rewrite Hw1. cbn. rewrite Hnt. apply lookup_insert_eq. }
  destruct (fetchGamesInRegion_done_spec w1 _ data error Hk1)
    as (w2 & Hs2 & Hg2 & _ & Hl2 & _).
  assert (Hshown2 : mapShown (component w2) = true) by (by eapply step_shown).
  exists w2. split; [done|].
  unfold mapShown in Hshown2. unfold render, headerText.
  rewrite Hl2, Hg2, Hc1, Hg.
  destruct (loadingLocation (component w2)); [done|].
  cbn in Hshown2 |- *.
  destruct (bool_decide (is_Some (region (component w2)))); [|done].
  cbn. by destruct error.
Qed.

Lemma header_follows_fetch_witness :
  exists w2,
    step (after 0 authed) (Settle 3 (RGames (Some [gameA; gameB]) None))
      = Some w2 /\
    render (component w2) = MapScreenView "2 game(s) in view".
Proof.
  destruct (header_follows_fetch (after 0 located) 2
              (mkRegion 40 (-74) 0.06 0.06) (mkSession "token"))
    as (w1 & Hs1 & _ & Hdone); [vm_compute; reflexivity ..|].
  assert (Hw1 : w1 = after 0 authed).
  { assert (H : step (after 0 located)
                     (Settle 2 (RSession (Some (mkSession "token"))))
                = Some (after 0 authed)) by (vm_compute; reflexivity).
    rewrite H in Hs1. by injection Hs1. }
  destruct (Hdone (Some [gameA; gameB]) None) as (w2 & Hs2 & Hr).
  rewrite Hw1 in Hs2. exists w2. split; [exact Hs2|]. exact Hr.
Defined.

(** A resumed function changes the visible list only when it is the fetch
    resuming with the rows of its query. *)
Lemma resume_games (k : Cont) (resp : Response) (m : M unit) (w : World) :
  resume k resp = Some m ->
  games (component (exec m w)) = games (component w) \/
  exists data,
    k = KGames /\ resp = RGames data None /\
    games (component (exec m w)) = default [] data.
Proof.
  destruct k, resp as [status| | |[s|]|data [e|]|]; cbn; try done;
    intros [= <-]; try (by left).
  - left. by destruct status.
  - right. by exists data.
  - left. by destruct error.
Qed.

(** X12. The visible list changes in one way only: a session-list query
    settles without error, and its rows (none, if the response carries
    null data) become the list. The passing of time, viewport changes,
    failed queries, a missing session, counts and presses all leave the
    list as it is. *)
Theorem list_changes_only_on_success :
  forall (w w' : World) (e : Event),
    step w e = Some w' ->
    games (component w') = games (component w) \/
    exists task data,
      e = Settle task (RGames data None) /\
      pending w !! task = Some KGames /\
      games (component w') = default [] data.
Proof.
  intros w w' e.
  destruct e as [dt|task resp|r|i| |]; cbn -[elapse].
  - case_bool_decide; [|done]. intros [= <-].
    change ((elapse dt w).2) with (exec (elapse dt) w).
    rewrite exec_elapse.
    match goal with |- context [exec (fire ?d) ?v] =>
      destruct (fire_spec d v) as (_ & -> & _) end. by left.
  - unfold settle. destruct (pending w !! task) as [k|] eqn:Hk; [|done]. cbn.
    destruct (resume k resp) as [m|] eqn:Hm; [|done]. cbn. intros [= <-].
    change ((m (forget task w)).2) with (exec m (forget task w)).
    destruct (resume_games k resp m (forget task w) Hm)
      as [Hsame | (data & -> & -> & Hrows)]; [by left|].
    right. by exists task, data.
  - destruct (mapShown (component w)); [|done]. intros [= <-].
    unfold onRegionChangeComplete.
    change ((?m w).2) with (exec m w).
    rewrite exec_bind, scheduleFetch_spec. by left.
  - destruct (mapShown (component w)); [|done].
    destruct (games (component w) !! i) as [g|]; [|done]. cbn.
    intros [= <-]. by left.
  - destruct (cardShown (component w)); [|done]. intros [= <-]. by left.
  - destruct (cardShown (component w)); [|done]. intros [= <-]. by left.
Qed.

Lemma list_changes_only_on_success_witness :
  games (component (after 0 panned)) = games (component (after 0 listed)).
Proof.
  assert (Hrun : run (after 0 listed)
                     [Elapse 500;
                      RegionChangeComplete (mkRegion 41 (-74) 0.06 0.06);
                      Elapse 450] = Some (after 0 (listed ++
                     [Elapse 500;
                      RegionChangeComplete (mkRegion 41 (-74) 0.06 0.06);
                      Elapse 450]))) by (vm_compute; reflexivity).
  destruct (list_changes_only_on_success
              (after 0 (listed ++
                        [Elapse 500;
                         RegionChangeComplete (mkRegion 41 (-74) 0.06 0.06);
                         Elapse 450]))
              (after 0 panned)
              (Settle 4 (RSession (Some (mkSession "token")))))
    as [Hsame | (task & data & Habs & _)];
    [vm_compute; reflexivity | | discriminate].
  rewrite Hsame. vm_compute. reflexivity.
Defined.

(** *** The players line of the card *)

(** X13. When a count fetch settles while a session is selected, the
    card stays on that session and its players line stops showing the
    ellipsis: after an error it shows the dash, and after a success the
    count of the response (0 for a null count) over the capacity of the
    selected session, whichever session the count was fetched for. A
    failed count is thus never shown as a count of 0. *)
Theorem players_line_after_count :
  forall (w : World) (task : nat) (g sel : Game) (count : option Z)
         (error : option PostgrestError),
    pending w !! task = Some (KCount g) ->
    selected (component w) = Some sel ->
    exists w',
      step w (Settle task (RCount count error)) = Some w' /\
      selected (component w') = Some sel /\
      playersText (component w') sel
        = match error with
          | Some _ => PlayersDash
          | None => PlayersOf (default 0%Z count) (Game.max_players sel)
          end.
Proof.
  intros w task g sel count error Hk Hsel.
  destruct (onSelectGame_done_spec w task g count error Hk)
    as (w' & Hs & Hc & Hl & Hsel' & _).
  exists w'. split; [done|]. split; [by rewrite Hsel'|].
  unfold playersText. rewrite Hl, Hc. by destruct error.
Qed.

Lemma players_line_after_count_witness :
  exists w',
    step (after 0 tapped) (Settle 4 (RCount None (Some (mkError "offline"))))
      = Some w' /\
    playersText (component w') gameA = PlayersDash.
Proof.
  destruct (players_line_after_count (after 0 tapped) 4 gameA gameA None
              (Some (mkError "offline")))
    as (w' & Hs & _ & Hp); [vm_compute; reflexivity ..|].
  exists w'. split; [exact Hs | exact Hp].
Defined.
